(** * souphttpsink: the buffering and dispatch engine of
      ext/soup/gstsouphttpsink.c

    The element queues the buffers it is given, sends them to an HTTP
    server in PUT requests, one request at a time, and records the status
    of a failed request in [status_code] / [reason_phrase].

    The embedding is shallow: the fields of the C object that the engine
    reads and writes form a record, every C function is a Rocq function on
    that record, and the two libraries the engine talks to (the soup
    session and the GLib main context) are kept as the lists of what the
    code handed to them. *)

From Stdlib Require Import String ZArith List Bool Lia.
From Stdlib Require Import Strings.Byte Numbers.DecimalString.
Import ListNotations.
Local Open Scope Z_scope.

(** ** Machine integers *)

(** [guint64] arithmetic wraps modulo 2^64. *)
Definition wrap64 (z : Z) : Z := z mod 2 ^ 64.

(** [G_GUINT64_FORMAT]: an unsigned 64-bit value printed in decimal. *)
Definition g_guint64_format (z : Z) : string :=
  NilZero.string_of_uint (N.to_uint (Z.to_N z)).

(** ** Buffers and messages *)

(** A [GstBuffer]: its bytes ([GST_BUFFER_DATA], [GST_BUFFER_SIZE] of them)
    and the one flag the sink looks at. *)
Record GstBuffer := mkBuffer {
  data : list byte;
  in_caps : bool                       (* GST_BUFFER_FLAG_IN_CAPS *)
}.

Definition GST_BUFFER_SIZE (buffer : GstBuffer) : Z :=
  Z.of_nat (length (data buffer)).

(** A [SoupMessage], as far as the sink builds and reads it. *)
Record SoupMessage := mkMessage {
  method : string;
  uri : string;
  request_headers : list (string * string);
  request_body : list byte;
  msg_status_code : Z;
  msg_reason_phrase : option string
}.

Definition soup_message_new (meth location : string) : SoupMessage :=
  mkMessage meth location [] [] 0 None.

Definition soup_message_body_append (msg : SoupMessage) (bytes : list byte)
  : SoupMessage :=
  mkMessage (method msg) (uri msg) (request_headers msg)
    (request_body msg ++ bytes) (msg_status_code msg) (msg_reason_phrase msg).

Definition soup_message_headers_append (msg : SoupMessage) (name value : string)
  : SoupMessage :=
  mkMessage (method msg) (uri msg) (request_headers msg ++ [(name, value)])
    (request_body msg) (msg_status_code msg) (msg_reason_phrase msg).

(** The session finishes a message: it fills in the response status. *)
Definition soup_message_finished (msg : SoupMessage) (status : Z)
  (reason : option string) : SoupMessage :=
  mkMessage (method msg) (uri msg) (request_headers msg) (request_body msg)
    status reason.

(** [SOUP_STATUS_IS_SUCCESSFUL]: any 2xx status. *)
Definition SOUP_STATUS_IS_SUCCESSFUL (status : Z) : bool :=
  (200 <=? status) && (status <? 300).

(** ** The sink and its surroundings *)

(** The first nine fields are those of [GstSoupHttpSink] that the engine
    uses ([NULL] pointers are [None], and [NULL] lists are [[]]).  The last
    four are the surroundings:
    - [soup_pending]: the messages given to [soup_session_queue_message]
      whose callback has not run yet;
    - [soup_log]: every message ever given to [soup_session_queue_message],
      oldest first;
    - [idle_sources]: how many idle sources calling [send_message] are
      attached to the main context and have not run yet;
    - [unreffed]: the buffers given to [gst_buffer_unref], oldest first.
    [gst_buffer_ref] returns its argument; the reference it takes is the
    membership of the buffer in one of the sink's lists. *)
Record State := mkState {
  location : option string;
  prop_session : bool;
  streamheader_buffers : list GstBuffer;
  queued_buffers : list GstBuffer;
  sent_buffers : list GstBuffer;
  message : option SoupMessage;
  offset : Z;
  status_code : Z;
  reason_phrase : option string;
  soup_pending : list SoupMessage;
  soup_log : list SoupMessage;
  idle_sources : nat;
  unreffed : list GstBuffer
}.

Section Setters.
Variable s : State.

Definition set_location v :=
  mkState v (prop_session s) (streamheader_buffers s) (queued_buffers s)
    (sent_buffers s) (message s) (offset s) (status_code s) (reason_phrase s)
    (soup_pending s) (soup_log s) (idle_sources s) (unreffed s).
Definition set_prop_session v :=
  mkState (location s) v (streamheader_buffers s) (queued_buffers s)
    (sent_buffers s) (message s) (offset s) (status_code s) (reason_phrase s)
    (soup_pending s) (soup_log s) (idle_sources s) (unreffed s).
Definition set_streamheader_buffers v :=
  mkState (location s) (prop_session s) v (queued_buffers s)
    (sent_buffers s) (message s) (offset s) (status_code s) (reason_phrase s)
    (soup_pending s) (soup_log s) (idle_sources s) (unreffed s).
Definition set_queued_buffers v :=
  mkState (location s) (prop_session s) (streamheader_buffers s) v
    (sent_buffers s) (message s) (offset s) (status_code s) (reason_phrase s)
    (soup_pending s) (soup_log s) (idle_sources s) (unreffed s).
Definition set_sent_buffers v :=
  mkState (location s) (prop_session s) (streamheader_buffers s)
    (queued_buffers s) v (message s) (offset s) (status_code s)
    (reason_phrase s) (soup_pending s) (soup_log s) (idle_sources s)
    (unreffed s).
Definition set_message v :=
  mkState (location s) (prop_session s) (streamheader_buffers s)
    (queued_buffers s) (sent_buffers s) v (offset s) (status_code s)
    (reason_phrase s) (soup_pending s) (soup_log s) (idle_sources s)
    (unreffed s).
Definition set_offset v :=
  mkState (location s) (prop_session s) (streamheader_buffers s)
    (queued_buffers s) (sent_buffers s) (message s) v (status_code s)
    (reason_phrase s) (soup_pending s) (soup_log s) (idle_sources s)
    (unreffed s).
Definition set_status_code v :=
  mkState (location s) (prop_session s) (streamheader_buffers s)
    (queued_buffers s) (sent_buffers s) (message s) (offset s) v
    (reason_phrase s) (soup_pending s) (soup_log s) (idle_sources s)
    (unreffed s).
Definition set_reason_phrase v :=
  mkState (location s) (prop_session s) (streamheader_buffers s)
    (queued_buffers s) (sent_buffers s) (message s) (offset s)
    (status_code s) v (soup_pending s) (soup_log s) (idle_sources s)
    (unreffed s).
Definition set_soup_pending v :=
  mkState (location s) (prop_session s) (streamheader_buffers s)
    (queued_buffers s) (sent_buffers s) (message s) (offset s)
    (status_code s) (reason_phrase s) v (soup_log s) (idle_sources s)
    (unreffed s).
Definition set_soup_log v :=
  mkState (location s) (prop_session s) (streamheader_buffers s)
    (queued_buffers s) (sent_buffers s) (message s) (offset s)
    (status_code s) (reason_phrase s) (soup_pending s) v (idle_sources s)
    (unreffed s).
Definition set_idle_sources v :=
  mkState (location s) (prop_session s) (streamheader_buffers s)
    (queued_buffers s) (sent_buffers s) (message s) (offset s)
    (status_code s) (reason_phrase s) (soup_pending s) (soup_log s) v
    (unreffed s).
Definition set_unreffed v :=
  mkState (location s) (prop_session s) (streamheader_buffers s)
    (queued_buffers s) (sent_buffers s) (message s) (offset s)
    (status_code s) (reason_phrase s) (soup_pending s) (soup_log s)
    (idle_sources s) v.
End Setters.

(** The object after [gst_soup_http_sink_init] (GObject zero-fills the
    instance, then [init] sets the properties and calls [reset]). *)
Definition gst_soup_http_sink_init : State :=
  mkState None false [] [] [] None 0 0 None [] [] 0%nat [].

(** ** The functions of the source *)

(** [free_buffer_list]: unref every buffer of the list, first to last. *)
Definition free_buffer_list (buffers : list GstBuffer) (s : State) : State :=
  set_unreffed s (unreffed s ++ buffers).

(** [soup_session_queue_message]: hand a message to the session. *)
Definition soup_session_queue_message (msg : SoupMessage) (s : State) : State :=
  set_soup_log (set_soup_pending s (soup_pending s ++ [msg]))
    (soup_log s ++ [msg]).

(** [soup_session_abort]: the session drops what it had pending. *)
Definition soup_session_abort (s : State) : State := set_soup_pending s [].

Definition gst_soup_http_sink_reset (s : State) : State :=
  set_offset (set_status_code (set_reason_phrase s None) 0) 0.

(** [gst_soup_http_sink_set_property], case [PROP_LOCATION]. *)
Definition set_property_location (value : option string) (s : State) : State :=
  set_offset (set_location s value) 0.

(** [gst_soup_http_sink_set_property], case [PROP_SESSION]; the flag says
    whether the value is an object or [NULL]. *)
Definition set_property_session (value : bool) (s : State) : State :=
  set_prop_session s value.

(** [gst_soup_http_sink_set_caps]; the argument is the value of the
    "streamheader" field of the caps, [None] when the caps have none. *)
Definition gst_soup_http_sink_set_caps (value_array : option (list GstBuffer))
  (s : State) : State :=
  match value_array with
  | Some buffers =>
      let s := free_buffer_list (streamheader_buffers s) s in
      let s := set_streamheader_buffers s [] in
      fold_left
        (fun s buffer =>
           set_streamheader_buffers s (streamheader_buffers s ++ [buffer]))
        buffers s
  | None => s
  end.

(** [gst_soup_http_sink_start] creates the session, the main context and
    its thread, none of which is part of [State]. *)
Definition gst_soup_http_sink_start (s : State) : State := s.

(** [gst_soup_http_sink_stop] aborts the session when the sink made it
    itself, takes down the loop, the thread and the context, and resets.
    The idle sources are left in [idle_sources]: a run may still take them,
    which only adds runs to those the theorems below cover. *)
Definition gst_soup_http_sink_stop (s : State) : State :=
  let s := if prop_session s then s else soup_session_abort s in
  gst_soup_http_sink_reset s.

(** The first loop of [send_message_locked]: every stream header goes into
    the body, and [n] counts the bytes. *)
Fixpoint append_streamheaders (g : list GstBuffer) (msg : SoupMessage) (n : Z)
  : SoupMessage * Z :=
  match g with
  | [] => (msg, n)
  | buffer :: g' =>
      append_streamheaders g'
        (soup_message_body_append msg (data buffer))
        (wrap64 (n + GST_BUFFER_SIZE buffer))
  end.

(** The second loop: every queued buffer without the IN_CAPS flag. *)
Fixpoint append_queued (g : list GstBuffer) (msg : SoupMessage) (n : Z)
  : SoupMessage * Z :=
  match g with
  | [] => (msg, n)
  | buffer :: g' =>
      if negb (in_caps buffer)
      then append_queued g'
             (soup_message_body_append msg (data buffer))
             (wrap64 (n + GST_BUFFER_SIZE buffer))
      else append_queued g' msg n
  end.

Definition content_range (first last : Z) : string :=
  ("bytes " ++ g_guint64_format first ++ "-" ++ g_guint64_format last ++ "/*")%string.

Definition send_message_locked (s : State) : State :=
  match queued_buffers s, message s with
  | [], _ => s
  | _ :: _, Some _ => s
  | _ :: _, None =>
      match location s with
      | None =>
          (* the URI went away: drop all these buffers *)
          set_queued_buffers (free_buffer_list (queued_buffers s) s) []
      | Some loc =>
          let msg := soup_message_new "PUT" loc in
          let '(msg, n) :=
            if offset s =? 0
            then append_streamheaders (streamheader_buffers s) msg 0
            else (msg, 0) in
          let '(msg, n) := append_queued (queued_buffers s) msg n in
          let msg :=
            if negb (offset s =? 0)
            then soup_message_headers_append msg "Content-Range"
                   (content_range (offset s) (wrap64 (offset s + n - 1)))
            else msg in
          if n =? 0
          then
            set_message
              (set_queued_buffers (free_buffer_list (queued_buffers s) s) [])
              None
          else
            let s := set_sent_buffers s (queued_buffers s) in
            let s := set_queued_buffers s [] in
            let s := set_message s (Some msg) in
            let s := soup_session_queue_message msg s in
            set_offset s (wrap64 (offset s + n))
      end
  end.

(** [send_message]: what an idle source runs; it takes the mutex around
    [send_message_locked]. *)
Definition send_message (s : State) : State := send_message_locked s.

(** [callback]: the session has finished [msg]. *)
Definition callback (msg : SoupMessage) (s : State) : State :=
  let s := set_message s None in
  if negb (SOUP_STATUS_IS_SUCCESSFUL (msg_status_code msg))
  then set_reason_phrase (set_status_code s (msg_status_code msg))
         (msg_reason_phrase msg)
  else
    let s := free_buffer_list (sent_buffers s) s in
    let s := set_sent_buffers s [] in
    send_message_locked s.

Inductive GstFlowReturn := GST_FLOW_OK | GST_FLOW_ERROR.

(** What [GST_ELEMENT_ERROR (sink, RESOURCE, WRITE, ...)] posts: the text
    and the two arguments of the debug format "error: %d %s". *)
Record ElementError := mkError {
  err_text : string;
  err_status_code : Z;
  err_reason_phrase : option string
}.

Definition gst_soup_http_sink_render (buffer : GstBuffer) (s : State)
  : State * GstFlowReturn * option ElementError :=
  if negb (status_code s =? 0)
  then (s, GST_FLOW_ERROR,
        Some (mkError "Could not write to HTTP URI" (status_code s)
                (reason_phrase s)))
  else
    let s :=
      match location s with
      | Some _ =>
          let wake := match queued_buffers s with [] => true | _ => false end in
          let s := set_queued_buffers s (queued_buffers s ++ [buffer]) in
          if wake then set_idle_sources s (S (idle_sources s)) else s
      | None => s
      end in
    (s, GST_FLOW_OK, None).

(** ** Runs *)

(** What can happen to the sink, one entry point of the source at a time
    (every one of them runs under the mutex, or on the streaming thread
    before it takes it):
    - the application sets a property or the caps, starts or stops;
    - the streaming thread renders a buffer;
    - the main loop runs a pending idle source ([Idle]);
    - the session finishes the message it has pending with the given
      status and calls [callback] ([Callback]). *)
Inductive Event :=
| SetLocation (value : option string)
| SetSession (value : bool)
| SetCaps (value_array : option (list GstBuffer))
| Start
| Stop
| Render (buffer : GstBuffer)
| Idle
| Callback (status : Z) (reason : option string).

(** One event; [None] when the event cannot happen in this state (no idle
    source is pending, or the session has no message to finish). *)
Definition step (s : State) (e : Event) : option State :=
  match e with
  | SetLocation value => Some (set_property_location value s)
  | SetSession value => Some (set_property_session value s)
  | SetCaps value_array => Some (gst_soup_http_sink_set_caps value_array s)
  | Start => Some (gst_soup_http_sink_start s)
  | Stop => Some (gst_soup_http_sink_stop s)
  | Render buffer => Some (fst (fst (gst_soup_http_sink_render buffer s)))
  | Idle =>
      match idle_sources s with
      | O => None
      | S k => Some (send_message (set_idle_sources s k))
      end
  | Callback status reason =>
      match soup_pending s with
      | [] => None
      | msg :: pending =>
          Some (callback (soup_message_finished msg status reason)
                  (set_soup_pending s pending))
      end
  end.

Fixpoint run (s : State) (events : list Event) : option State :=
  match events with
  | [] => Some s
  | e :: events' =>
      match step s e with
      | Some s' => run s' events'
      | None => None
      end
  end.

Inductive GstEventType := GST_EVENT_EOS | GST_EVENT_OTHER.

(** [gst_soup_http_sink_event].  On EOS the streaming thread waits on the
    condition variable while [message] is set.  Each element of [wakeups] is
    what the other threads do during one [g_cond_wait]; the result is the
    state in which the handler returns and the wake-ups it did not need, or
    [None] if it is still waiting when [wakeups] is used up. *)
Fixpoint gst_soup_http_sink_event (ty : GstEventType)
  (wakeups : list (list Event)) (s : State)
  : option (State * list (list Event)) :=
  match ty with
  | GST_EVENT_OTHER => Some (s, wakeups)
  | GST_EVENT_EOS =>
      match message s with
      | None => Some (s, wakeups)
      | Some _ =>
          match wakeups with
          | [] => None
          | during_wait :: wakeups' =>
              match run s during_wait with
              | Some s' => gst_soup_http_sink_event ty wakeups' s'
              | None => None
              end
          end
      end
  end.

(** ** What a run sent and what it was given *)

Definition buffers_bytes (l : list GstBuffer) : list byte :=
  flat_map data l.

(** The bytes of the buffers that do not carry the IN_CAPS flag. *)
Definition payload_bytes (l : list GstBuffer) : list byte :=
  buffers_bytes (filter (fun b => negb (in_caps b)) l).

(** The bodies of all the requests handed to the session, in order. *)
Definition sent_bytes (s : State) : list byte :=
  flat_map request_body (soup_log s).

(** The buffers rendered by a list of events, in order. *)
Definition rendered (events : list Event) : list GstBuffer :=
  flat_map (fun e => match e with Render b => [b] | _ => [] end) events.

(** ** The request that [send_message_locked] builds, in closed form *)

(** The bytes the two loops put into the body. *)
Definition request_bytes (s : State) : list byte :=
  (if offset s =? 0 then buffers_bytes (streamheader_buffers s) else [])
  ++ payload_bytes (queued_buffers s).

(** The value of the C variable [n] after the two loops. *)
Definition request_size (s : State) : Z :=
  wrap64 (Z.of_nat (length (request_bytes s))).

Definition request_for (loc : string) (s : State) : SoupMessage :=
  mkMessage "PUT" loc
    (if offset s =? 0 then []
     else [("Content-Range"%string,
            content_range (offset s) (wrap64 (offset s + request_size s - 1)))])
    (request_bytes s) 0 None.

(** [send_message_locked] with its two loops replaced by their results
    (lemma [send_message_locked_dispatch] below). *)
Definition dispatch (s : State) : State :=
  match queued_buffers s, message s with
  | [], _ => s
  | _ :: _, Some _ => s
  | _ :: _, None =>
      match location s with
      | None => set_queued_buffers (free_buffer_list (queued_buffers s) s) []
      | Some loc =>
          if request_size s =? 0
          then set_message
                 (set_queued_buffers (free_buffer_list (queued_buffers s) s) [])
                 None
          else
            mkState (location s) (prop_session s) (streamheader_buffers s)
              [] (queued_buffers s) (Some (request_for loc s))
              (wrap64 (offset s + request_size s)) (status_code s)
              (reason_phrase s) (soup_pending s ++ [request_for loc s])
              (soup_log s ++ [request_for loc s]) (idle_sources s) (unreffed s)
      end
  end.

(** What a dispatch does, case by case. *)
Inductive dispatch_result (s : State) : State -> Prop :=
| dispatch_nothing :
    (queued_buffers s = [] \/ message s <> None) ->
    dispatch_result s s
| dispatch_dropped :
    queued_buffers s <> [] -> message s = None ->
    (location s = None \/ request_size s = 0) ->
    dispatch_result s
      (set_message
         (set_queued_buffers (free_buffer_list (queued_buffers s) s) []) None)
| dispatch_sent loc :
    queued_buffers s <> [] -> message s = None ->
    location s = Some loc -> request_size s <> 0 ->
    dispatch_result s
      (mkState (location s) (prop_session s) (streamheader_buffers s)
         [] (queued_buffers s) (Some (request_for loc s))
         (wrap64 (offset s + request_size s)) (status_code s)
         (reason_phrase s) (soup_pending s ++ [request_for loc s])
         (soup_log s ++ [request_for loc s]) (idle_sources s) (unreffed s)).

(** The streaming thread renders the buffers of a list one after the
    other; the result is the final state and what each call returned. *)
Fixpoint render_all (buffers : list GstBuffer) (s : State)
  : State * list (GstFlowReturn * option ElementError) :=
  match buffers with
  | [] => (s, [])
  | buffer :: buffers' =>
      let '(s1, ret, err) := gst_soup_http_sink_render buffer s in
      let '(s2, rets) := render_all buffers' s1 in
      (s2, (ret, err) :: rets)
  end.

(** The events that leave [status_code] and [reason_phrase] alone: all but
    a stop and a request that fails. *)
Definition keeps_latch (e : Event) : bool :=
  match e with
  | Stop => false
  | Callback status _ => SOUP_STATUS_IS_SUCCESSFUL status
  | _ => true
  end.

(** ** Properties of states and steps *)

(** The session holds at most one message, and none when the [message]
    slot is empty. *)
Definition single_flight (s : State) : Prop :=
  (length (soup_pending s) <= 1)%nat /\
  (message s = None -> soup_pending s = []).

(** What one event does to the offset: either nothing is handed to the
    session and the offset stays, or one message is and the offset moves
    on by the length of its body, modulo 2^64. *)
Definition offset_moves_with_log (s s' : State) : Prop :=
  (soup_log s' = soup_log s /\ offset s' = offset s) \/
  (exists msg : SoupMessage,
     soup_log s' = soup_log s ++ [msg] /\
     request_body msg <> [] /\
     offset s' = wrap64 (offset s + Z.of_nat (length (request_body msg))) /\
     (offset s + Z.of_nat (length (request_body msg)) < 2 ^ 64 ->
      offset s < offset s')).

(** ** The byte stream of a session *)

(** The events of a session that streams to one location without a
    failure: buffers are rendered, idle sources run, requests succeed. *)
Definition stream_event (e : Event) : bool :=
  match e with
  | Render _ | Idle => true
  | Callback status _ => SOUP_STATUS_IS_SUCCESSFUL status
  | _ => false
  end.

(** The stream headers, once a request has been handed to the session. *)
Definition headers_if_sent (headers : list GstBuffer) (s : State) : list byte :=
  match soup_log s with
  | [] => []
  | _ :: _ => buffers_bytes headers
  end.

(** What holds all along such a session, [given] being the bytes of the
    buffers rendered so far that do not carry the IN_CAPS flag. *)
Record stream_inv (loc : string) (headers : list GstBuffer)
  (given : list byte) (s : State) : Prop := {
  inv_location : location s = Some loc;
  inv_headers : streamheader_buffers s = headers;
  inv_status : status_code s = 0;
  inv_offset : offset s = Z.of_nat (length (sent_bytes s));
  inv_nonempty : soup_log s <> [] -> sent_bytes s <> [];
  inv_bytes :
    sent_bytes s ++ payload_bytes (queued_buffers s)
    = headers_if_sent headers s ++ given
}.

(** ** Sample data *)

Definition bufA : GstBuffer := mkBuffer [x41; x41; x41] false.
Definition bufB : GstBuffer := mkBuffer [x42; x42] false.
Definition bufC : GstBuffer := mkBuffer [x43] false.
Definition bufD : GstBuffer := mkBuffer [x44; x44; x44; x44] false.
Definition bufE : GstBuffer := mkBuffer [x45] false.
Definition bufH : GstBuffer := mkBuffer [x48; x31] true.
Definition target : string := "http://server/filename.ogv".

(** Five buffers queued, then the location taken away. *)
Definition lost_target_state : State :=
  mkState None false [] [bufA; bufB; bufC; bufD; bufE] [] None 0 0 None
    [] [] 1%nat [].

(** One buffer queued and one stream header kept, nothing sent yet. *)
Definition armed_state : State :=
  mkState (Some target) false [bufH] [bufA] [] None 0 0 None [] [] 1%nat [].

(** The first request (stream header and [bufA]) is with the session. *)
Definition in_flight_state : State :=
  mkState (Some target) false [bufH] [] [bufA]
    (Some (mkMessage "PUT" target [] [x48; x31; x41; x41; x41] 0 None))
    5 0 None
    [mkMessage "PUT" target [] [x48; x31; x41; x41; x41] 0 None]
    [mkMessage "PUT" target [] [x48; x31; x41; x41; x41] 0 None]
    0%nat [].

(** A request has failed with 500; [bufB] was queued before that. *)
Definition latched_state : State :=
  mkState (Some target) false [bufH] [bufB] [bufA] None 5 500
    (Some "Internal Server Error"%string) []
    [mkMessage "PUT" target [] [x48; x31; x41; x41; x41] 0 None]
    1%nat [].

(** The first request has succeeded and [bufB] waits for the next one. *)
Definition rearmed_state : State :=
  mkState (Some target) false [bufH] [bufB] [] None 5 0 None []
    [mkMessage "PUT" target [] [x48; x31; x41; x41; x41] 0 None]
    1%nat [bufA].

(** The first request has succeeded and nothing is queued. *)
Definition drained_state : State :=
  mkState (Some target) false [bufH] [] [] None 5 0 None []
    [mkMessage "PUT" target [] [x48; x31; x41; x41; x41] 0 None]
    0%nat [bufA].

(** A session: the in-band copy of the stream header and [bufA] are
    rendered and sent, [bufB] and [bufC] arrive while the first request is
    pending and go out in the second, which succeeds too. *)
Definition sample_events : list Event :=
  [Render bufH; Render bufA; Idle; Render bufB; Idle; Render bufC;
   Callback 200 (Some "OK"%string); Callback 201 (Some "Created"%string)].

Definition sample_end : State :=
  Eval vm_compute in
    match run gst_soup_http_sink_init
            (SetLocation (Some target) :: SetCaps (Some [bufH]) :: Start
             :: sample_events) with
    | Some s => s
    | None => gst_soup_http_sink_init
    end.

(** The request carrying [bufB] was sent after the failure and has failed
    with 404. *)
Definition relatched_state : State :=
  mkState (Some target) false [bufH] [] [bufB] None 7 404
    (Some "Not Found"%string) []
    [mkMessage "PUT" target [] [x48; x31; x41; x41; x41] 0 None;
     mkMessage "PUT" target [("Content-Range", "bytes 5-6/*")%string]
       [x42; x42] 0 None]
    0%nat [].

(** After the failure a render is refused, the pending idle source sends
    [bufB], and that request succeeds; 500 stays recorded. *)
Definition latched_end : State :=
  Eval vm_compute in
    match run latched_state
            [Render bufC; Idle; Callback 200 (Some "OK"%string)] with
    | Some s => s
    | None => latched_state
    end.

(** ** More properties of states and runs *)

(** Any event but a stop. *)
Definition not_stop (e : Event) : bool :=
  match e with
  | Stop => false
  | _ => true
  end.

(** The [message] slot and the session agree: the session holds the
    message of the slot and nothing else. *)
Definition slot_is_pending (s : State) : Prop :=
  soup_pending s
  = match message s with
    | Some msg => [msg]
    | None => []
    end.

(** Queued buffers do not wait in vain: with the slot empty, an idle
    source is there to send them. *)
Definition dispatch_owed (s : State) : Prop :=
  queued_buffers s <> [] -> message s = None -> (0 < idle_sources s)%nat.

(** The extra idle source a burst of renders attaches. *)
Definition burst_wake (s : State) (buffers : list GstBuffer) : nat :=
  match queued_buffers s, buffers with
  | [], _ :: _ => 1%nat
  | _, _ => 0%nat
  end.

(** Every buffer the sink took a reference on is in exactly one place:
    already unreffed, with the request in flight, or in the queue; [given]
    lists them in the order they were rendered. *)
Definition conserved (loc : string) (given : list GstBuffer) (s : State)
  : Prop :=
  location s = Some loc /\
  status_code s = 0 /\
  given = unreffed s ++ sent_buffers s ++ queued_buffers s /\
  (message s = None -> sent_buffers s = []).

(** The requests of a log cover the bytes from [start] on without gap or
    overlap: each one carries the Content-Range of the bytes of its body,
    except a request that starts at 0, which carries no header. *)
Fixpoint ranges_from (start : Z) (log : list SoupMessage) : Prop :=
  match log with
  | [] => True
  | msg :: log' =>
      request_headers msg
      = (if start =? 0 then []
         else [("Content-Range"%string,
                content_range start
                  (start + Z.of_nat (length (request_body msg)) - 1))]) /\
      ranges_from (start + Z.of_nat (length (request_body msg))) log'
  end.

(** A session in which [bufA] has been sent and acknowledged, [bufB] and
    [bufC] are in flight and [bufD] is queued. *)
Definition conserved_end : State :=
  Eval vm_compute in
    match run gst_soup_http_sink_init
            [SetLocation (Some target); SetCaps (Some [bufH]); Start;
             Render bufA; Idle; Render bufB; Render bufC;
             Callback 200 (Some "OK"%string); Render bufD] with
    | Some s => s
    | None => gst_soup_http_sink_init
    end.

(** ** Properties and authentication *)

(** The property ids of the [enum]. *)
Inductive PropertyId :=
| PROP_0
| PROP_LOCATION
| PROP_USER_AGENT
| PROP_AUTOMATIC_REDIRECT
| PROP_PROXY
| PROP_USER_ID
| PROP_USER_PW
| PROP_PROXY_ID
| PROP_PROXY_PW
| PROP_COOKIES
| PROP_SESSION.

(** A [GValue] of one of the three types the properties have; an object is
    given by its address, [None] for [NULL]. *)
Inductive GValue :=
| G_STRING (v : option string)
| G_BOOLEAN (v : bool)
| G_OBJECT (v : option N).

(** The GLib readers give [NULL] or [FALSE] on a value of another type. *)
Definition g_value_dup_string (value : GValue) : option string :=
  match value with
  | G_STRING v => v
  | _ => None
  end.

Definition g_value_get_boolean (value : GValue) : bool :=
  match value with
  | G_BOOLEAN v => v
  | _ => false
  end.

Definition g_value_get_object (value : GValue) : option N :=
  match value with
  | G_OBJECT v => v
  | _ => None
  end.

(** The element: the engine and the fields that only the properties and
    [authenticate] use.  [prop_session_object] is the pointer kept in
    [prop_session]; the engine keeps whether it is set. *)
Record Element := mkElement {
  engine : State;
  user_agent : option string;
  automatic_redirect : bool;
  user_id : option string;
  user_pw : option string;
  proxy_id : option string;
  proxy_pw : option string;
  prop_session_object : option N
}.

(** The param specs that [gst_soup_http_sink_class_init] installs: which
    type of value each property takes (the "proxy" property is compiled
    out, and no "cookies" property is installed). *)
Definition value_fits (property_id : PropertyId) (value : GValue) : bool :=
  match property_id, value with
  | PROP_LOCATION, G_STRING _
  | PROP_USER_AGENT, G_STRING _
  | PROP_USER_ID, G_STRING _
  | PROP_USER_PW, G_STRING _
  | PROP_PROXY_ID, G_STRING _
  | PROP_PROXY_PW, G_STRING _ => true
  | PROP_AUTOMATIC_REDIRECT, G_BOOLEAN _ => true
  | PROP_SESSION, G_OBJECT _ => true
  | _, _ => false
  end.

Definition installed (property_id : PropertyId) : bool :=
  match property_id with
  | PROP_0 | PROP_PROXY | PROP_COOKIES => false
  | _ => true
  end.

(** [gst_soup_http_sink_set_property]; the flag of the result says whether
    [G_OBJECT_WARN_INVALID_PROPERTY_ID] was reached. *)
Definition gst_soup_http_sink_set_property (property_id : PropertyId)
  (value : GValue) (e : Element) : Element * bool :=
  match property_id with
  | PROP_SESSION =>
      (mkElement
         (set_property_session
            (match g_value_get_object value with
             | Some _ => true
             | None => false
             end) (engine e))
         (user_agent e) (automatic_redirect e) (user_id e) (user_pw e)
         (proxy_id e) (proxy_pw e) (g_value_get_object value), false)
  | PROP_LOCATION =>
      (mkElement (set_property_location (g_value_dup_string value) (engine e))
         (user_agent e) (automatic_redirect e) (user_id e) (user_pw e)
         (proxy_id e) (proxy_pw e) (prop_session_object e), false)
  | PROP_USER_AGENT =>
      (mkElement (engine e) (g_value_dup_string value) (automatic_redirect e)
         (user_id e) (user_pw e) (proxy_id e) (proxy_pw e)
         (prop_session_object e), false)
  | PROP_AUTOMATIC_REDIRECT =>
      (mkElement (engine e) (user_agent e) (g_value_get_boolean value)
         (user_id e) (user_pw e) (proxy_id e) (proxy_pw e)
         (prop_session_object e), false)
  | PROP_USER_ID =>
      (mkElement (engine e) (user_agent e) (automatic_redirect e)
         (g_value_dup_string value) (user_pw e) (proxy_id e) (proxy_pw e)
         (prop_session_object e), false)
  | PROP_USER_PW =>
      (mkElement (engine e) (user_agent e) (automatic_redirect e)
         (user_id e) (g_value_dup_string value) (proxy_id e) (proxy_pw e)
         (prop_session_object e), false)
  | PROP_PROXY_ID =>
      (mkElement (engine e) (user_agent e) (automatic_redirect e)
         (user_id e) (user_pw e) (g_value_dup_string value) (proxy_pw e)
         (prop_session_object e), false)
  | PROP_PROXY_PW =>
      (mkElement (engine e) (user_agent e) (automatic_redirect e)
         (user_id e) (user_pw e) (proxy_id e) (g_value_dup_string value)
         (prop_session_object e), false)
  | _ => (e, true)
  end.

(** [gst_soup_http_sink_get_property]: the value it stores, [None] when it
    only warns about the id. *)
Definition gst_soup_http_sink_get_property (property_id : PropertyId)
  (e : Element) : option GValue :=
  match property_id with
  | PROP_SESSION => Some (G_OBJECT (prop_session_object e))
  | PROP_LOCATION => Some (G_STRING (location (engine e)))
  | PROP_AUTOMATIC_REDIRECT => Some (G_BOOLEAN (automatic_redirect e))
  | PROP_USER_AGENT => Some (G_STRING (user_agent e))
  | PROP_USER_ID => Some (G_STRING (user_id e))
  | PROP_USER_PW => Some (G_STRING (user_pw e))
  | PROP_PROXY_ID => Some (G_STRING (proxy_id e))
  | PROP_PROXY_PW => Some (G_STRING (proxy_pw e))
  | _ => None
  end.

(** [authenticate]: the user and the password given to
    [soup_auth_authenticate], [None] when it is not called. *)
Definition authenticate (retrying : bool) (e : Element)
  : option (string * string) :=
  if negb retrying
  then
    match user_id e, user_pw e with
    | Some id, Some pw => Some (id, pw)
    | _, _ => None
    end
  else None.

(** Several properties set one after the other. *)
Fixpoint set_properties (settings : list (PropertyId * GValue)) (e : Element)
  : Element :=
  match settings with
  | [] => e
  | (property_id, value) :: settings' =>
      set_properties settings'
        (fst (gst_soup_http_sink_set_property property_id value e))
  end.

Definition is_credential (property_id : PropertyId) : bool :=
  match property_id with
  | PROP_USER_ID | PROP_USER_PW => true
  | _ => false
  end.

(** The element after [gst_soup_http_sink_init]. *)
Definition element_init : Element :=
  mkElement gst_soup_http_sink_init (Some "GStreamer souphttpsink "%string)
    true None None None None None.

(** ** The waits of the EOS handler *)

(** Before each of the waits of [used] the slot is filled: the state the
    other threads have reached by then exists and has a message in
    flight. *)
Definition slot_filled_before_each (s : State) (used : list (list Event))
  : Prop :=
  forall (pre : list (list Event)) (w : list Event)
    (post : list (list Event)),
    used = pre ++ w :: post ->
    exists sp : State, run s (concat pre) = Some sp /\ message sp <> None.

(** The first request is in flight, [bufB] is queued and its idle source
    has not run. *)
Definition waiting_state : State :=
  Eval vm_compute in
    match run armed_state [Idle; Render bufB] with
    | Some s => s
    | None => armed_state
    end.

(** The first request has succeeded, [callback] has sent [bufB] at once,
    the idle source has run to no effect, and the second request has
    succeeded too. *)
Definition waited_state : State :=
  Eval vm_compute in
    match run waiting_state
            [Callback 200 (Some "OK"%string); Idle;
             Callback 200 (Some "OK"%string)] with
    | Some s => s
    | None => waiting_state
    end.

(** The two states between [waiting_state] and [waited_state]: the second
    request in flight, before and after the idle source has run. *)
Definition waiting_once_state : State :=
  Eval vm_compute in
    match run waiting_state [Callback 200 (Some "OK"%string)] with
    | Some s => s
    | None => waiting_state
    end.

Definition waiting_twice_state : State :=
  Eval vm_compute in
    match run waiting_once_state [Idle] with
    | Some s => s
    | None => waiting_once_state
    end.

(** A request has failed with 500 after the idle source of [bufB] had
    run: [bufB] is queued, nothing is in flight, no idle source is
    pending. *)
Definition stuck_state : State :=
  Eval vm_compute in
    match run armed_state
            [Idle; Render bufB; Idle;
             Callback 500 (Some "Internal Server Error"%string)] with
    | Some s => s
    | None => armed_state
    end.

(** * Proofs *)

(** ** Arithmetic and the two loops *)

Lemma wrap64_add_l a b : wrap64 (wrap64 a + b) = wrap64 (a + b).
Proof. unfold wrap64. apply Z.add_mod_idemp_l. lia. Qed.

Lemma wrap64_small z : 0 <= z < 2 ^ 64 -> wrap64 z = z.
Proof. intros H. unfold wrap64. apply Z.mod_small. exact H. Qed.

Lemma wrap64_range z : 0 <= wrap64 z < 2 ^ 64.
Proof. unfold wrap64. apply Z.mod_pos_bound. lia. Qed.

Lemma body_append_app msg a b :
  soup_message_body_append (soup_message_body_append msg a) b
  = soup_message_body_append msg (a ++ b).
Proof. unfold soup_message_body_append. simpl. now rewrite app_assoc. Qed.

Lemma body_append_nil msg : soup_message_body_append msg [] = msg.
Proof. destruct msg. unfold soup_message_body_append. simpl. now rewrite app_nil_r. Qed.

Lemma append_streamheaders_eq g : forall msg n,
  append_streamheaders g msg (wrap64 n)
  = (soup_message_body_append msg (buffers_bytes g),
     wrap64 (n + Z.of_nat (length (buffers_bytes g)))).
Proof.
  induction g as [|buffer g IH]; intros msg n; simpl.
  - now rewrite body_append_nil, Z.add_0_r.
  - rewrite wrap64_add_l, IH, body_append_app. unfold GST_BUFFER_SIZE.
    rewrite length_app, Nat2Z.inj_add. f_equal. f_equal. lia.
Qed.

Lemma append_queued_eq g : forall msg n,
  append_queued g msg (wrap64 n)
  = (soup_message_body_append msg (payload_bytes g),
     wrap64 (n + Z.of_nat (length (payload_bytes g)))).
Proof.
  unfold payload_bytes.
  induction g as [|buffer g IH]; intros msg n; simpl.
  - now rewrite body_append_nil, Z.add_0_r.
  - destruct (in_caps buffer); simpl.
    + apply IH.
    + rewrite wrap64_add_l, IH, body_append_app. unfold GST_BUFFER_SIZE.
      rewrite length_app, Nat2Z.inj_add. f_equal. f_equal. lia.
Qed.

Lemma send_message_locked_dispatch s : send_message_locked s = dispatch s.
Proof.
  unfold send_message_locked, dispatch.
  destruct (queued_buffers s) as [|b q] eqn:Hq; [reflexivity|].
  destruct (message s) eqn:Hm; [reflexivity|].
  destruct (location s) as [loc|] eqn:Hl; [|reflexivity].
  assert (Hloops :
    (let '(msg, n) :=
       if offset s =? 0
       then append_streamheaders (streamheader_buffers s)
              (soup_message_new "PUT" loc) 0
       else (soup_message_new "PUT" loc, 0) in
     append_queued (b :: q) msg n)
    = (soup_message_body_append (soup_message_new "PUT" loc) (request_bytes s),
       request_size s)).
  { unfold request_size, request_bytes. rewrite Hq.
    destruct (offset s =? 0).
    - change 0 with (wrap64 0) at 1. rewrite append_streamheaders_eq.
      rewrite append_queued_eq, body_append_app, length_app, Nat2Z.inj_add.
      reflexivity.
    - change 0 with (wrap64 0) at 1.
      rewrite append_queued_eq. reflexivity. }
  destruct (if offset s =? 0
            then append_streamheaders (streamheader_buffers s)
                   (soup_message_new "PUT" loc) 0
            else (soup_message_new "PUT" loc, 0)) as [msg1 n1].
  rewrite Hloops.
  destruct (request_size s =? 0); [reflexivity|].
  unfold request_for, soup_session_queue_message, set_offset, set_soup_log,
    set_soup_pending, set_message, set_queued_buffers, set_sent_buffers.
  simpl. rewrite ?Hl.
  destruct (offset s =? 0); reflexivity.
Qed.

(** ** One dispatch *)

Lemma app_one_neq {A : Type} (l : list A) (x : A) : l <> l ++ [x].
Proof.
  intros H. apply (f_equal (@length A)) in H.
  rewrite length_app in H. simpl in H. lia.
Qed.

Lemma request_size_zero (s : State) :
  request_size s = 0 -> Z.of_nat (length (request_bytes s)) < 2 ^ 64 ->
  request_bytes s = [].
Proof.
  unfold request_size. intros H Hlt.
  rewrite wrap64_small in H by lia.
  destruct (request_bytes s); [reflexivity|simpl in H; lia].
Qed.

Lemma request_size_nonzero (s : State) :
  request_size s <> 0 -> request_bytes s <> [].
Proof.
  unfold request_size. intros H E. rewrite E in H. apply H. reflexivity.
Qed.

Lemma send_message_locked_result (s : State) :
  dispatch_result s (send_message_locked s).
Proof.
  rewrite send_message_locked_dispatch. unfold dispatch.
  destruct (queued_buffers s) as [|b q] eqn:Hq.
  - apply dispatch_nothing. now left.
  - destruct (message s) as [m|] eqn:Hm.
    + apply dispatch_nothing. right. rewrite Hm. discriminate.
    + destruct (location s) as [loc|] eqn:Hl.
      * destruct (request_size s =? 0) eqn:Hn.
        -- apply Z.eqb_eq in Hn. rewrite <- Hq.
           apply dispatch_dropped; auto. rewrite Hq. discriminate.
        -- apply Z.eqb_neq in Hn. rewrite <- Hq, <- Hl.
           apply dispatch_sent; auto. rewrite Hq. discriminate.
      * replace (set_queued_buffers (free_buffer_list (b :: q) s) [])
          with (set_message
                  (set_queued_buffers
                     (free_buffer_list (queued_buffers s) s) []) None).
        -- apply dispatch_dropped; auto. rewrite Hq. discriminate.
        -- rewrite Hq. unfold set_message, set_queued_buffers. simpl.
           rewrite Hm. reflexivity.
Qed.

(** ** The sample states are states of runs *)

Lemma sample_states_reached :
  run gst_soup_http_sink_init
    [SetLocation (Some target); SetCaps (Some [bufH]); Start; Render bufA]
  = Some armed_state /\
  run armed_state [Idle; Callback 200 (Some "OK"%string)] = Some drained_state /\
  run armed_state [Idle; Render bufB; Callback 500 (Some "Internal Server Error"%string)]
  = Some latched_state /\
  run armed_state [Idle; Callback 200 (Some "OK"%string); Render bufB]
  = Some rearmed_state /\
  run latched_state [Idle; Callback 404 (Some "Not Found"%string)]
  = Some relatched_state.
Proof. repeat split. Qed.

(** ** The dispatch when the location is gone *)

(** C8: when [send_message_locked] runs with buffers queued, no message in
    flight and no location, every queued buffer is unreffed, the queue
    becomes empty and nothing is handed to the session. *)
Theorem lost_target_discard (s : State) :
  queued_buffers s <> [] -> message s = None -> location s = None ->
  queued_buffers (send_message_locked s) = [] /\
  unreffed (send_message_locked s) = unreffed s ++ queued_buffers s /\
  soup_log (send_message_locked s) = soup_log s /\
  soup_pending (send_message_locked s) = soup_pending s /\
  message (send_message_locked s) = None.
Proof.
  intros Hq Hm Hl. unfold send_message_locked.
  destruct (queued_buffers s) as [|b q] eqn:E; [contradiction|].
  rewrite Hm, Hl. simpl. auto.
Qed.

Lemma lost_target_discard_witness :
  run gst_soup_http_sink_init
    [SetLocation (Some target); Start; Render bufA; Render bufB; Render bufC;
     Render bufD; Render bufE; SetLocation None]
  = Some lost_target_state /\
  queued_buffers lost_target_state <> [] /\
  message lost_target_state = None /\
  location lost_target_state = None /\
  queued_buffers (send_message_locked lost_target_state) = [] /\
  unreffed (send_message_locked lost_target_state)
  = [] ++ [bufA; bufB; bufC; bufD; bufE] /\
  soup_log (send_message_locked lost_target_state) = [] /\
  soup_pending (send_message_locked lost_target_state) = [] /\
  message (send_message_locked lost_target_state) = None.
Proof.
  split; [reflexivity|].
  split; [discriminate|]. split; [reflexivity|]. split; [reflexivity|].
  apply (lost_target_discard lost_target_state).
  - discriminate.
  - reflexivity.
  - reflexivity.
Defined.

(** ** Rendering *)

(** C10: with no error recorded and no location, render leaves the state as
    it is (the buffer is not queued, no idle source is added) and returns
    GST_FLOW_OK without posting an error, which is also what it returns
    when it queues the buffer. *)
Theorem render_without_location (buffer : GstBuffer) (s : State) :
  status_code s = 0 -> location s = None ->
  gst_soup_http_sink_render buffer s = (s, GST_FLOW_OK, None) /\
  forall s2 : State, status_code s2 = 0 ->
    (snd (fst (gst_soup_http_sink_render buffer s2)),
     snd (gst_soup_http_sink_render buffer s2)) = (GST_FLOW_OK, None).
Proof.
  intros Hs Hl. split.
  - unfold gst_soup_http_sink_render. rewrite Hs, Hl. reflexivity.
  - intros s2 Hs2. unfold gst_soup_http_sink_render. rewrite Hs2. reflexivity.
Qed.

Lemma render_without_location_witness :
  status_code gst_soup_http_sink_init = 0 /\
  location gst_soup_http_sink_init = None /\
  gst_soup_http_sink_render bufA gst_soup_http_sink_init
  = (gst_soup_http_sink_init, GST_FLOW_OK, None) /\
  forall s2 : State, status_code s2 = 0 ->
    (snd (fst (gst_soup_http_sink_render bufA s2)),
     snd (gst_soup_http_sink_render bufA s2)) = (GST_FLOW_OK, None).
Proof.
  split; [reflexivity|]. split; [reflexivity|].
  apply (render_without_location bufA gst_soup_http_sink_init); reflexivity.
Defined.

(** ** What each function leaves alone *)

Lemma set_caps_closed_form (buffers : list GstBuffer) (s : State) :
  gst_soup_http_sink_set_caps (Some buffers) s
  = set_streamheader_buffers
      (free_buffer_list (streamheader_buffers s) s) buffers.
Proof.
  unfold gst_soup_http_sink_set_caps.
  assert (H : forall l s0,
    fold_left
      (fun s1 buffer =>
         set_streamheader_buffers s1 (streamheader_buffers s1 ++ [buffer]))
      l s0
    = set_streamheader_buffers s0 (streamheader_buffers s0 ++ l)).
  { induction l as [|b l IH]; intros s0; simpl.
    - rewrite app_nil_r. now destruct s0.
    - rewrite IH. simpl. now rewrite <- app_assoc. }
  rewrite H. reflexivity.
Qed.

Lemma dispatch_keeps_latch (s : State) :
  status_code (send_message_locked s) = status_code s /\
  reason_phrase (send_message_locked s) = reason_phrase s.
Proof. destruct (send_message_locked_result s); simpl; auto. Qed.

Lemma step_keeps_latch (s s' : State) (e : Event) :
  keeps_latch e = true -> step s e = Some s' ->
  status_code s' = status_code s /\ reason_phrase s' = reason_phrase s.
Proof.
  intros Hk Hstep. destruct e; simpl in Hk, Hstep; try discriminate.
  - inversion Hstep; auto.
  - inversion Hstep; auto.
  - inversion Hstep. destruct value_array as [buffers|]; auto.
    rewrite set_caps_closed_form. auto.
  - injection Hstep as <-. unfold gst_soup_http_sink_start. auto.
  - inversion Hstep. unfold gst_soup_http_sink_render.
    destruct (negb (status_code s =? 0)); simpl; auto.
    destruct (location s); auto.
    destruct (queued_buffers s); auto.
  - destruct (idle_sources s) as [|k]; [discriminate|].
    inversion Hstep. unfold send_message.
    destruct (dispatch_keeps_latch (set_idle_sources s k)) as [H1 H2].
    rewrite H1, H2. auto.
  - destruct (soup_pending s) as [|msg pending]; [discriminate|].
    inversion Hstep. unfold callback. simpl. rewrite Hk. simpl.
    match goal with
    | |- context [send_message_locked ?x] =>
        destruct (dispatch_keeps_latch x) as [H1 H2]; rewrite H1, H2
    end.
    auto.
Qed.

Lemma run_keeps_latch (events : list Event) : forall s s' : State,
  forallb keeps_latch events = true -> run s events = Some s' ->
  status_code s' = status_code s /\ reason_phrase s' = reason_phrase s.
Proof.
  induction events as [|e events IH]; intros s s' Hk Hrun; simpl in *.
  - inversion Hrun; auto.
  - apply andb_prop in Hk. destruct Hk as [He Hk].
    destruct (step s e) as [s1|] eqn:Hstep; [|discriminate].
    destruct (step_keeps_latch _ _ _ He Hstep) as [H1 H2].
    destruct (IH _ _ Hk Hrun) as [H3 H4].
    rewrite H3, H4. auto.
Qed.

Lemma render_latched (buffer : GstBuffer) (s : State) :
  status_code s <> 0 ->
  gst_soup_http_sink_render buffer s
  = (s, GST_FLOW_ERROR,
     Some (mkError "Could not write to HTTP URI" (status_code s)
             (reason_phrase s))).
Proof.
  intros H. unfold gst_soup_http_sink_render.
  destruct (status_code s =? 0) eqn:E; [|reflexivity].
  apply Z.eqb_eq in E. contradiction.
Qed.

(** X17: once [status_code] is set, and whatever happens afterwards short
    of a stop or another failed request, any number of render calls all
    return GST_FLOW_ERROR, each posting the recorded status code and reason
    phrase, and they leave the whole state as it is: the buffers are not
    queued, no idle source is added and nothing reaches the session. *)
Theorem latch_permanence (s s' : State) (events : list Event)
  (buffers : list GstBuffer) :
  status_code s <> 0 ->
  forallb keeps_latch events = true ->
  run s events = Some s' ->
  render_all buffers s'
  = (s', map (fun _ =>
            (GST_FLOW_ERROR,
             Some (mkError "Could not write to HTTP URI" (status_code s)
                     (reason_phrase s)))) buffers).
Proof.
  intros Hs Hk Hrun.
  destruct (run_keeps_latch _ _ _ Hk Hrun) as [H1 H2].
  rewrite <- H1, <- H2. rewrite <- H1 in Hs. clear - Hs.
  induction buffers as [|b buffers IH]; simpl.
  - reflexivity.
  - rewrite (render_latched b s' Hs), IH. reflexivity.
Qed.

Lemma latch_permanence_witness :
  status_code latched_state <> 0 /\
  forallb keeps_latch
    [Render bufC; Idle; Callback 200 (Some "OK"%string)] = true /\
  run latched_state [Render bufC; Idle; Callback 200 (Some "OK"%string)]
  = Some latched_end /\
  render_all [bufA; bufB; bufC] latched_end
  = (latched_end,
     map (fun _ =>
            (GST_FLOW_ERROR,
             Some (mkError "Could not write to HTTP URI" 500
                     (Some "Internal Server Error"%string))))
       [bufA; bufB; bufC]).
Proof.
  split; [discriminate|]. split; [reflexivity|]. split; [reflexivity|].
  apply (latch_permanence latched_state latched_end
           [Render bufC; Idle; Callback 200 (Some "OK"%string)]
           [bufA; bufB; bufC]).
  - discriminate.
  - reflexivity.
  - reflexivity.
Defined.

(** C7 fails on the code: after the failure with 500 the pending idle
    source sends [bufB] all the same (the dispatch that C4 is about), that
    request fails with 404, [callback] stores the new status and reason
    over the old ones, and a later render reports 404 and not the 500
    recorded first. *)
Theorem later_failure_overwrites_latch :
  run gst_soup_http_sink_init
    [SetLocation (Some target); SetCaps (Some [bufH]); Start; Render bufA;
     Idle; Render bufB;
     Callback 500 (Some "Internal Server Error"%string)]
  = Some latched_state /\
  status_code latched_state = 500 /\
  reason_phrase latched_state = Some "Internal Server Error"%string /\
  run latched_state [Idle; Callback 404 (Some "Not Found"%string)]
  = Some relatched_state /\
  gst_soup_http_sink_render bufC relatched_state
  = (relatched_state, GST_FLOW_ERROR,
     Some (mkError "Could not write to HTTP URI" 404
             (Some "Not Found"%string))) /\
  snd (gst_soup_http_sink_render bufC relatched_state)
  <> Some (mkError "Could not write to HTTP URI" (status_code latched_state)
             (reason_phrase latched_state)).
Proof.
  repeat split; try reflexivity.
  simpl. intros H. discriminate H.
Qed.

(** ** Stopping *)

(** C9, as the code has it: after [gst_soup_http_sink_stop] the offset is 0
    and no error is recorded (status 0, no reason phrase); the queued
    buffers and the stream headers are what they were, and stop neither
    unrefs a buffer nor hands anything to the session. *)
Theorem stop_resets_offset_and_latch (s : State) :
  offset (gst_soup_http_sink_stop s) = 0 /\
  status_code (gst_soup_http_sink_stop s) = 0 /\
  reason_phrase (gst_soup_http_sink_stop s) = None /\
  queued_buffers (gst_soup_http_sink_stop s) = queued_buffers s /\
  streamheader_buffers (gst_soup_http_sink_stop s) = streamheader_buffers s /\
  unreffed (gst_soup_http_sink_stop s) = unreffed s /\
  soup_log (gst_soup_http_sink_stop s) = soup_log s.
Proof.
  unfold gst_soup_http_sink_stop. destruct (prop_session s); simpl; auto 10.
Qed.

(** C9 as stated fails: stopping with one buffer queued and one stream
    header kept clears neither list and unrefs nothing. *)
Lemma stop_clears_queue_counterexample :
  run gst_soup_http_sink_init
    [SetLocation (Some target); SetCaps (Some [bufH]); Start; Render bufA]
  = Some armed_state /\
  queued_buffers (gst_soup_http_sink_stop armed_state) = [bufA] /\
  streamheader_buffers (gst_soup_http_sink_stop armed_state) = [bufH] /\
  unreffed (gst_soup_http_sink_stop armed_state) = [] /\
  ~ (queued_buffers (gst_soup_http_sink_stop armed_state) = [] /\
     streamheader_buffers (gst_soup_http_sink_stop armed_state) = []).
Proof.
  repeat split; try reflexivity.
  intros [H _]. discriminate H.
Qed.

(** ** The request of one dispatch *)

(** C6: a request that [send_message_locked] hands to the session has a
    body that is not empty; built at offset 0 it has no header at all,
    built at an offset above 0 it has the one header
    "Content-Range: bytes offset-(offset+n-1)/*", where n is the length of
    its body (the 64-bit counter taken not to wrap); and when the bytes to
    send are none, nothing is handed to the session and the queued buffers
    are unreffed. *)
Theorem content_range_of_request (s : State) :
  0 <= offset s ->
  (request_bytes s = [] -> message s = None ->
   soup_log (send_message_locked s) = soup_log s /\
   soup_pending (send_message_locked s) = soup_pending s /\
   message (send_message_locked s) = None /\
   queued_buffers (send_message_locked s) = [] /\
   unreffed (send_message_locked s) = unreffed s ++ queued_buffers s) /\
  (forall msg : SoupMessage,
   soup_log (send_message_locked s) = soup_log s ++ [msg] ->
   offset s + Z.of_nat (length (request_body msg)) <= 2 ^ 64 ->
   request_body msg = request_bytes s /\
   Z.of_nat (length (request_body msg)) <> 0 /\
   (offset s = 0 -> request_headers msg = []) /\
   (offset s <> 0 ->
    request_headers msg
    = [("Content-Range"%string,
        content_range (offset s)
          (offset s + Z.of_nat (length (request_body msg)) - 1))])).
Proof.
  intros Hoff. split.
  - intros Hbytes Hm.
    destruct (send_message_locked_result s) as [[Hq|Hn]|Hq _ _|loc _ _ _ Hn].
    + rewrite Hq, app_nil_r. auto.
    + contradiction.
    + simpl. auto.
    + exfalso. apply Hn. unfold request_size. rewrite Hbytes. reflexivity.
  - intros msg Hlog Hbound.
    destruct (send_message_locked_result s) as [_|_ _ _|loc _ _ _ Hn].
    + exfalso. exact (app_one_neq _ _ Hlog).
    + simpl in Hlog. exfalso. exact (app_one_neq _ _ Hlog).
    + simpl in Hlog. apply app_inv_head in Hlog.
      injection Hlog as <-. simpl in *.
      pose proof (request_size_nonzero s Hn) as Hne.
      split; [reflexivity|]. split.
      * destruct (request_bytes s); [contradiction|simpl; lia].
      * split; intros H0.
        -- rewrite H0. reflexivity.
        -- destruct (offset s =? 0) eqn:E; [apply Z.eqb_eq in E; contradiction|].
           unfold request_size.
           assert (0 < Z.of_nat (length (request_bytes s))).
           { destruct (request_bytes s); [contradiction|simpl; lia]. }
           rewrite (wrap64_small (Z.of_nat _)) by lia.
           rewrite wrap64_small by lia. reflexivity.
Qed.

Lemma content_range_of_request_witness :
  0 <= offset rearmed_state /\
  soup_log (send_message_locked rearmed_state)
  = soup_log rearmed_state
    ++ [mkMessage "PUT" target [("Content-Range", "bytes 5-6/*")%string]
          [x42; x42] 0 None] /\
  offset rearmed_state + 2 <= 2 ^ 64 /\
  offset rearmed_state <> 0 /\
  request_headers
    (mkMessage "PUT" target [("Content-Range", "bytes 5-6/*")%string]
       [x42; x42] 0 None)
  = [("Content-Range"%string, content_range 5 (5 + 2 - 1))].
Proof.
  assert (H0 : 0 <= offset rearmed_state) by (simpl; lia).
  assert (Hne : offset rearmed_state <> 0) by discriminate.
  assert (Hb : offset rearmed_state + 2 <= 2 ^ 64) by (simpl; lia).
  split; [exact H0|]. split; [reflexivity|].
  split; [exact Hb|]. split; [exact Hne|].
  destruct (content_range_of_request rearmed_state H0) as [_ H].
  destruct (H (mkMessage "PUT" target [("Content-Range", "bytes 5-6/*")%string]
                 [x42; x42] 0 None) eq_refl Hb) as (_ & _ & _ & H4).
  exact (H4 Hne).
Defined.

(** ** One request at a time *)

Lemma dispatch_single_flight (s : State) :
  single_flight s -> single_flight (send_message_locked s).
Proof.
  unfold single_flight. intros [Hlen Hnone].
  destruct (send_message_locked_result s) as [_|_ Hm _|loc _ Hm _ _]; simpl.
  - auto.
  - auto.
  - rewrite (Hnone Hm). simpl. split; [lia|discriminate].
Qed.

Lemma step_single_flight (s s' : State) (e : Event) :
  single_flight s -> step s e = Some s' -> single_flight s'.
Proof.
  intros Hinv Hstep. destruct e; simpl in Hstep.
  - injection Hstep as <-. exact Hinv.
  - injection Hstep as <-. exact Hinv.
  - injection Hstep as <-. destruct value_array as [buffers|]; [|exact Hinv].
    rewrite set_caps_closed_form. exact Hinv.
  - injection Hstep as <-. exact Hinv.
  - injection Hstep as <-. unfold gst_soup_http_sink_stop, single_flight in *.
    destruct Hinv as [Hlen Hnone].
    destruct (prop_session s); simpl; auto.
  - injection Hstep as <-. unfold gst_soup_http_sink_render.
    destruct (negb (status_code s =? 0)); simpl; [exact Hinv|].
    destruct (location s); [|exact Hinv].
    destruct (queued_buffers s); exact Hinv.
  - destruct (idle_sources s) as [|k]; [discriminate|].
    injection Hstep as <-. apply dispatch_single_flight. exact Hinv.
  - destruct (soup_pending s) as [|msg pending] eqn:Hp; [discriminate|].
    injection Hstep as <-. destruct Hinv as [Hlen _].
    rewrite Hp in Hlen. simpl in Hlen.
    assert (pending = []) as -> by (destruct pending; [reflexivity|simpl in Hlen; lia]).
    unfold callback.
    destruct (negb (SOUP_STATUS_IS_SUCCESSFUL _)).
    + split; simpl; [lia|reflexivity].
    + apply dispatch_single_flight. split; simpl; [lia|reflexivity].
Qed.

Lemma run_single_flight (events : list Event) : forall s s' : State,
  single_flight s -> run s events = Some s' -> single_flight s'.
Proof.
  induction events as [|e events IH]; intros s s' Hinv Hrun; simpl in Hrun.
  - injection Hrun as <-. exact Hinv.
  - destruct (step s e) as [s1|] eqn:Hstep; [|discriminate].
    exact (IH _ _ (step_single_flight _ _ _ Hinv Hstep) Hrun).
Qed.

Lemma dispatch_submits (s : State) :
  single_flight s ->
  soup_log (send_message_locked s) <> soup_log s ->
  exists msg : SoupMessage,
    message s = None /\
    soup_log (send_message_locked s) = soup_log s ++ [msg] /\
    soup_pending (send_message_locked s) = [msg] /\
    message (send_message_locked s) = Some msg.
Proof.
  intros [_ Hnone] Hlog.
  destruct (send_message_locked_result s) as [_|_ _ _|loc _ Hm _ _];
    simpl in *; try contradiction.
  exists (request_for loc s). rewrite (Hnone Hm). auto.
Qed.

(** C2: in every state a run can reach from the initial one the session
    holds at most one message of the sink; whenever an event hands a
    message to the session, that message becomes the only one the session
    holds and fills the [message] slot; and while the slot is filled,
    [send_message_locked] does nothing.  ([callback] empties the slot
    before it dispatches again, which is why its dispatch goes through.) *)
Theorem single_flight_invariant (events : list Event) (s : State) :
  run gst_soup_http_sink_init events = Some s ->
  (length (soup_pending s) <= 1)%nat /\
  (soup_pending s <> [] -> message s <> None) /\
  (message s <> None -> send_message_locked s = s) /\
  (forall (e : Event) (s' : State),
   step s e = Some s' -> soup_log s' <> soup_log s ->
   exists msg : SoupMessage,
     soup_log s' = soup_log s ++ [msg] /\
     soup_pending s' = [msg] /\ message s' = Some msg).
Proof.
  intros Hrun.
  assert (Hinv : single_flight s).
  { apply (run_single_flight events gst_soup_http_sink_init); [|exact Hrun].
    split; simpl; [lia|reflexivity]. }
  split; [exact (proj1 Hinv)|]. split.
  { intros Hp Hm. apply Hp. exact (proj2 Hinv Hm). }
  split.
  { intros Hm. unfold send_message_locked.
    destruct (queued_buffers s); [reflexivity|].
    destruct (message s); [reflexivity|contradiction]. }
  intros e s' Hstep Hlog. destruct e; simpl in Hstep.
  - injection Hstep as <-. contradiction.
  - injection Hstep as <-. contradiction.
  - injection Hstep as <-. destruct value_array as [buffers|]; [|contradiction].
    rewrite set_caps_closed_form in Hlog. contradiction.
  - injection Hstep as <-. contradiction.
  - injection Hstep as <-. unfold gst_soup_http_sink_stop in Hlog.
    destruct (prop_session s); contradiction.
  - injection Hstep as <-. unfold gst_soup_http_sink_render in Hlog.
    destruct (negb (status_code s =? 0)); simpl in Hlog; [contradiction|].
    destruct (location s); [|contradiction].
    destruct (queued_buffers s); contradiction.
  - destruct (idle_sources s) as [|k]; [discriminate|].
    injection Hstep as <-. unfold send_message in *.
    destruct (dispatch_submits (set_idle_sources s k) Hinv Hlog)
      as (msg & _ & H1 & H2 & H3).
    exists msg. auto.
  - destruct (soup_pending s) as [|m pending] eqn:Hp; [discriminate|].
    injection Hstep as <-. unfold callback in *.
    destruct (negb (SOUP_STATUS_IS_SUCCESSFUL _)); [contradiction|].
    match type of Hlog with
    | soup_log (send_message_locked ?x) <> _ =>
        assert (Hx : single_flight x)
    end.
    { destruct Hinv as [Hlen _]. rewrite Hp in Hlen. simpl in Hlen.
      destruct pending; [|simpl in Hlen; lia].
      split; simpl; [lia|reflexivity]. }
    destruct (dispatch_submits _ Hx Hlog) as (msg & _ & H1 & H2 & H3).
    exists msg. auto.
Qed.

Lemma single_flight_invariant_witness :
  run gst_soup_http_sink_init
    [SetLocation (Some target); SetCaps (Some [bufH]); Start; Render bufA]
  = Some armed_state /\
  step armed_state Idle = Some in_flight_state /\
  soup_pending in_flight_state
  = [mkMessage "PUT" target [] [x48; x31; x41; x41; x41] 0 None].
Proof.
  split; [reflexivity|]. split; [reflexivity|].
  destruct (single_flight_invariant
              [SetLocation (Some target); SetCaps (Some [bufH]); Start;
               Render bufA] armed_state eq_refl) as (_ & _ & _ & H).
  destruct (H Idle in_flight_state eq_refl) as (msg & H1 & H2 & _).
  - discriminate.
  - simpl in H1. injection H1 as <-. exact H2.
Defined.

(** ** The offset *)

Lemma dispatch_offset (s : State) :
  (soup_log (send_message_locked s) = soup_log s /\
   offset (send_message_locked s) = offset s) \/
  (exists msg : SoupMessage,
     soup_log (send_message_locked s) = soup_log s ++ [msg] /\
     request_body msg <> [] /\
     offset (send_message_locked s)
     = wrap64 (offset s + Z.of_nat (length (request_body msg)))).
Proof.
  destruct (send_message_locked_result s) as [_|_ _ _|loc _ _ _ Hn]; simpl.
  - left. auto.
  - left. auto.
  - right. exists (request_for loc s). simpl.
    split; [reflexivity|]. split; [exact (request_size_nonzero s Hn)|].
    unfold request_size, wrap64. rewrite Z.add_mod_idemp_r by lia. reflexivity.
Qed.

Lemma step_offset_range (s s' : State) (e : Event) :
  0 <= offset s < 2 ^ 64 -> step s e = Some s' -> 0 <= offset s' < 2 ^ 64.
Proof.
  intros Hr Hstep. destruct e; simpl in Hstep.
  - injection Hstep as <-. simpl. lia.
  - injection Hstep as <-. exact Hr.
  - injection Hstep as <-. destruct value_array as [buffers|]; [|exact Hr].
    rewrite set_caps_closed_form. exact Hr.
  - injection Hstep as <-. exact Hr.
  - injection Hstep as <-. unfold gst_soup_http_sink_stop.
    destruct (prop_session s); simpl; lia.
  - injection Hstep as <-. unfold gst_soup_http_sink_render.
    destruct (negb (status_code s =? 0)); simpl; [exact Hr|].
    destruct (location s); [|exact Hr].
    destruct (queued_buffers s); exact Hr.
  - destruct (idle_sources s) as [|k]; [discriminate|].
    injection Hstep as <-. unfold send_message.
    destruct (dispatch_offset (set_idle_sources s k))
      as [[_ H]|(msg & _ & _ & H)]; rewrite H.
    + exact Hr.
    + apply wrap64_range.
  - destruct (soup_pending s) as [|m pending]; [discriminate|].
    injection Hstep as <-. unfold callback.
    destruct (negb (SOUP_STATUS_IS_SUCCESSFUL _)); [exact Hr|].
    match goal with
    | |- context [send_message_locked ?x] =>
        destruct (dispatch_offset x) as [[_ H]|(msg & _ & _ & H)]; rewrite H
    end.
    + exact Hr.
    + apply wrap64_range.
Qed.

Lemma run_offset_range (events : list Event) : forall s s' : State,
  0 <= offset s < 2 ^ 64 -> run s events = Some s' -> 0 <= offset s' < 2 ^ 64.
Proof.
  induction events as [|e events IH]; intros s s' Hr Hrun; simpl in Hrun.
  - injection Hrun as <-. exact Hr.
  - destruct (step s e) as [s1|] eqn:Hstep; [|discriminate].
    exact (IH _ _ (step_offset_range _ _ _ Hr Hstep) Hrun).
Qed.

(** C3, as the code has it: the offset is a 64-bit counter; setting the
    location and stopping put it back to 0; any other event changes it only
    if it hands a request to the session, and then it adds the length of
    that request's body (modulo 2^64) at that moment, before the request
    completes; so between two resets the offset does not decrease as long as
    the counter does not wrap.  A completion by itself never moves it. *)
Theorem offset_advances_at_dispatch (events : list Event) (s s' : State)
  (e : Event) :
  run gst_soup_http_sink_init events = Some s ->
  step s e = Some s' ->
  0 <= offset s < 2 ^ 64 /\
  match e with
  | SetLocation _ | Stop => offset s' = 0 /\ soup_log s' = soup_log s
  | _ => offset_moves_with_log s s'
  end.
Proof.
  intros Hrun Hstep.
  assert (Hr : 0 <= offset s < 2 ^ 64).
  { apply (run_offset_range events gst_soup_http_sink_init); [simpl; lia|exact Hrun]. }
  split; [exact Hr|].
  assert (Hd : forall x : State, offset x = offset s -> soup_log x = soup_log s ->
               offset_moves_with_log s (send_message_locked x)).
  { intros x Hox Hlx.
    destruct (dispatch_offset x) as [[H1 H2]|(msg & H1 & H2 & H3)].
    - left. rewrite H1, H2. auto.
    - right. exists msg. rewrite H1, H3, Hlx, Hox.
      repeat split; auto.
      intros Hlt. rewrite wrap64_small.
      + destruct (request_body msg); [contradiction|simpl; lia].
      + lia. }
  destruct e; simpl in Hstep.
  - injection Hstep as <-. auto.
  - injection Hstep as <-. left. auto.
  - injection Hstep as <-. left. destruct value_array as [buffers|]; auto.
    rewrite set_caps_closed_form. auto.
  - injection Hstep as <-. left. auto.
  - injection Hstep as <-. unfold gst_soup_http_sink_stop.
    destruct (prop_session s); auto.
  - injection Hstep as <-. left. unfold gst_soup_http_sink_render.
    destruct (negb (status_code s =? 0)); simpl; auto.
    destruct (location s); auto.
    destruct (queued_buffers s); auto.
  - destruct (idle_sources s) as [|k]; [discriminate|].
    injection Hstep as <-. apply Hd; reflexivity.
  - destruct (soup_pending s) as [|m pending]; [discriminate|].
    injection Hstep as <-. unfold callback.
    destruct (negb (SOUP_STATUS_IS_SUCCESSFUL _)).
    + left. auto.
    + apply Hd; reflexivity.
Qed.

Lemma offset_advances_at_dispatch_witness :
  run gst_soup_http_sink_init
    [SetLocation (Some target); SetCaps (Some [bufH]); Start; Render bufA]
  = Some armed_state /\
  step armed_state Idle = Some in_flight_state /\
  0 <= offset armed_state < 2 ^ 64 /\
  offset_moves_with_log armed_state in_flight_state.
Proof.
  split; [reflexivity|]. split; [reflexivity|].
  exact (offset_advances_at_dispatch
           [SetLocation (Some target); SetCaps (Some [bufH]); Start;
            Render bufA]
           armed_state in_flight_state Idle
           eq_refl eq_refl).
Defined.

(** C3 as stated fails: the offset goes from 0 to 5 when the idle source
    hands the first request to the session, while that request is still
    pending, and the successful completion of the request leaves it at 5. *)
Lemma offset_on_completion_counterexample :
  run gst_soup_http_sink_init
    [SetLocation (Some target); SetCaps (Some [bufH]); Start; Render bufA]
  = Some armed_state /\
  step armed_state Idle = Some in_flight_state /\
  offset armed_state = 0 /\
  offset in_flight_state = 5 /\
  soup_pending in_flight_state
  = [mkMessage "PUT" target [] [x48; x31; x41; x41; x41] 0 None] /\
  step in_flight_state (Callback 200 (Some "OK"%string))
  = Some drained_state /\
  offset drained_state = 5 /\
  ~ (offset in_flight_state = offset armed_state /\
     offset drained_state = offset in_flight_state + 5).
Proof.
  repeat split; try reflexivity.
  intros [H _]. discriminate H.
Qed.

(** ** End of stream *)

Lemma run_app (a b : list Event) : forall s : State,
  run s (a ++ b)
  = match run s a with
    | Some s1 => run s1 b
    | None => None
    end.
Proof.
  induction a as [|e a IH]; intros s; simpl; [reflexivity|].
  destruct (step s e); [apply IH|reflexivity].
Qed.

Lemma slot_filled_nil (s : State) : slot_filled_before_each s [].
Proof. intros pre w post H. destruct pre; discriminate H. Qed.

Lemma slot_filled_head (s : State) (w : list Event) (used : list (list Event)) :
  slot_filled_before_each s (w :: used) -> message s <> None.
Proof.
  intros H. destruct (H [] w used eq_refl) as (sp & Hrun & Hm).
  simpl in Hrun. injection Hrun as <-. exact Hm.
Qed.

Lemma slot_filled_tail (s s1 : State) (w : list Event)
  (used : list (list Event)) :
  slot_filled_before_each s (w :: used) -> run s w = Some s1 ->
  slot_filled_before_each s1 used.
Proof.
  intros H Hw pre w' post Hused.
  destruct (H (w :: pre) w' post) as (sp & Hrun & Hm).
  - simpl. now rewrite Hused.
  - simpl in Hrun. rewrite run_app, Hw in Hrun. exists sp. auto.
Qed.

Lemma slot_filled_cons (s s1 : State) (w : list Event)
  (used : list (list Event)) :
  message s <> None -> run s w = Some s1 ->
  slot_filled_before_each s1 used ->
  slot_filled_before_each s (w :: used).
Proof.
  intros Hm Hw H pre w' post Hused. destruct pre as [|p pre].
  - exists s. auto.
  - simpl in Hused. injection Hused as <- Hused.
    destruct (H pre w' post Hused) as (sp & Hrun & Hsp).
    exists sp. simpl. rewrite run_app, Hw. auto.
Qed.

Lemma eos_returns_at_first_empty_slot (used : list (list Event)) :
  forall (s s' : State) (rest : list (list Event)),
  slot_filled_before_each s used ->
  run s (concat used) = Some s' -> message s' = None ->
  gst_soup_http_sink_event GST_EVENT_EOS (used ++ rest) s = Some (s', rest).
Proof.
  induction used as [|w used IH]; intros s s' rest Hfilled Hrun Hm.
  - simpl in Hrun. injection Hrun as <-.
    destruct rest; simpl; rewrite Hm; reflexivity.
  - pose proof (slot_filled_head _ _ _ Hfilled) as Hs.
    simpl in Hrun. rewrite run_app in Hrun.
    destruct (run s w) as [s1|] eqn:Hw; [|discriminate].
    simpl. destruct (message s); [|contradiction].
    rewrite Hw. apply IH; auto.
    exact (slot_filled_tail _ _ _ _ Hfilled Hw).
Qed.

Lemma eos_return_is_first_empty_slot (wakeups : list (list Event)) :
  forall (s s' : State) (rest : list (list Event)),
  gst_soup_http_sink_event GST_EVENT_EOS wakeups s = Some (s', rest) ->
  message s' = None /\
  exists used : list (list Event),
    wakeups = used ++ rest /\
    run s (concat used) = Some s' /\
    slot_filled_before_each s used.
Proof.
  induction wakeups as [|w wakeups IH]; intros s s' rest H; simpl in H.
  - destruct (message s) eqn:Hm; [discriminate|].
    injection H as <- <-. split; [exact Hm|].
    exists []. split; [reflexivity|]. split; [reflexivity|].
    apply slot_filled_nil.
  - destruct (message s) eqn:Hm.
    + destruct (run s w) as [s1|] eqn:Hw; [|discriminate].
      destruct (IH _ _ _ H) as (Hm' & used & H1 & H2 & H3).
      split; [exact Hm'|]. exists (w :: used).
      split; [simpl; now rewrite H1|].
      split; [simpl; now rewrite run_app, Hw|].
      apply (slot_filled_cons s s1); auto. rewrite Hm. discriminate.
    + injection H as <- <-. split; [exact Hm|].
      exists []. split; [reflexivity|]. split; [reflexivity|].
      apply slot_filled_nil.
Qed.

Lemma eos_still_waiting (wakeups : list (list Event)) :
  forall s s' : State,
  slot_filled_before_each s wakeups ->
  run s (concat wakeups) = Some s' -> message s' <> None ->
  gst_soup_http_sink_event GST_EVENT_EOS wakeups s = None.
Proof.
  induction wakeups as [|w wakeups IH]; intros s s' Hfilled Hrun Hm.
  - simpl in Hrun. injection Hrun as <-. simpl.
    destruct (message s); [reflexivity|contradiction].
  - pose proof (slot_filled_head _ _ _ Hfilled) as Hs.
    simpl in Hrun. rewrite run_app in Hrun.
    destruct (run s w) as [s1|] eqn:Hw; [|discriminate].
    simpl. destruct (message s); [|contradiction].
    rewrite Hw. apply (IH s1 s'); auto.
    exact (slot_filled_tail _ _ _ _ Hfilled Hw).
Qed.

(** C5, as the code has it: the EOS handler looks at the [message] slot
    before the first wait and after every wait, however many there are, and
    returns at the first look that finds the slot empty: it returns in the
    state the other threads have reached by then, with the slot empty and
    having found it filled at every earlier look; when the slot is empty
    at the start it returns at once, without waiting; and as long as every
    look finds the slot filled it goes on waiting.  The handler never
    looks at the queued buffers. *)
Theorem eos_waits_for_message (s : State) (wakeups : list (list Event)) :
  (forall (s' : State) (rest : list (list Event)),
   gst_soup_http_sink_event GST_EVENT_EOS wakeups s = Some (s', rest) ->
   message s' = None /\
   exists used : list (list Event),
     wakeups = used ++ rest /\
     run s (concat used) = Some s' /\
     slot_filled_before_each s used) /\
  (message s = None ->
   gst_soup_http_sink_event GST_EVENT_EOS wakeups s = Some (s, wakeups)) /\
  (message s <> None ->
   gst_soup_http_sink_event GST_EVENT_EOS [] s = None /\
   forall (during_wait : list Event) (s1 : State),
   run s during_wait = Some s1 -> message s1 = None ->
   gst_soup_http_sink_event GST_EVENT_EOS (during_wait :: wakeups) s
   = Some (s1, wakeups)) /\
  (forall (used : list (list Event)) (s' : State),
   slot_filled_before_each s used ->
   run s (concat used) = Some s' -> message s' = None ->
   gst_soup_http_sink_event GST_EVENT_EOS (used ++ wakeups) s
   = Some (s', wakeups)) /\
  (forall s' : State,
   slot_filled_before_each s wakeups ->
   run s (concat wakeups) = Some s' -> message s' <> None ->
   gst_soup_http_sink_event GST_EVENT_EOS wakeups s = None).
Proof.
  split; [|split; [|split; [|split]]].
  - intros s' rest H. exact (eos_return_is_first_empty_slot _ _ _ _ H).
  - intros Hm. destruct wakeups; simpl; rewrite Hm; reflexivity.
  - intros Hm. split.
    + simpl. destruct (message s); [reflexivity|contradiction].
    + intros w s1 Hrun Hm1. simpl.
      destruct (message s); [|contradiction].
      rewrite Hrun. destruct wakeups; simpl; rewrite Hm1; reflexivity.
  - intros used s' Hfilled Hrun Hm.
    exact (eos_returns_at_first_empty_slot used s s' wakeups Hfilled Hrun Hm).
  - intros s' Hfilled Hrun Hm.
    exact (eos_still_waiting wakeups s s' Hfilled Hrun Hm).
Qed.

Lemma waiting_state_slot_filled :
  slot_filled_before_each waiting_state
    [[Callback 200 (Some "OK"%string)]; [Idle];
     [Callback 200 (Some "OK"%string)]].
Proof.
  apply (slot_filled_cons waiting_state waiting_once_state);
    [discriminate|reflexivity|].
  apply (slot_filled_cons waiting_once_state waiting_twice_state);
    [discriminate|reflexivity|].
  apply (slot_filled_cons waiting_twice_state waited_state);
    [discriminate|reflexivity|].
  apply slot_filled_nil.
Qed.

Lemma eos_waits_for_message_witness :
  run armed_state [Idle; Render bufB] = Some waiting_state /\
  message waiting_state <> None /\
  slot_filled_before_each waiting_state
    [[Callback 200 (Some "OK"%string)]; [Idle];
     [Callback 200 (Some "OK"%string)]] /\
  run waiting_state
    (concat [[Callback 200 (Some "OK"%string)]; [Idle];
             [Callback 200 (Some "OK"%string)]])
  = Some waited_state /\
  message waited_state = None /\
  gst_soup_http_sink_event GST_EVENT_EOS
    ([[Callback 200 (Some "OK"%string)]; [Idle];
      [Callback 200 (Some "OK"%string)]] ++ [[Idle]])
    waiting_state
  = Some (waited_state, [[Idle]]).
Proof.
  split; [reflexivity|]. split; [discriminate|].
  split; [exact waiting_state_slot_filled|].
  split; [reflexivity|]. split; [reflexivity|].
  destruct (eos_waits_for_message waiting_state [[Idle]])
    as (_ & _ & _ & H & _).
  exact (H [[Callback 200 (Some "OK"%string)]; [Idle];
            [Callback 200 (Some "OK"%string)]] waited_state
           waiting_state_slot_filled eq_refl eq_refl).
Defined.

(** C5 as stated fails: with one buffer queued and its idle source not yet
    run, the EOS handler returns at once, and the queue still holds the
    buffer. *)
Lemma eos_returns_with_queue_counterexample :
  run gst_soup_http_sink_init
    [SetLocation (Some target); SetCaps (Some [bufH]); Start; Render bufA]
  = Some armed_state /\
  gst_soup_http_sink_event GST_EVENT_EOS [[Idle]] armed_state
  = Some (armed_state, [[Idle]]) /\
  ~ (message armed_state = None /\ queued_buffers armed_state = []).
Proof.
  repeat split; try reflexivity.
  intros [_ H]. discriminate H.
Qed.

(** ** After a failure *)

(** C4 fails on the code: [bufB] is rendered while the first request is
    pending, which attaches an idle source; the request then fails with
    500, and when the idle source runs, [send_message_locked] hands a second
    request, carrying [bufB], to the session although [status_code] is
    500. *)
Theorem pending_idle_dispatches_after_failure :
  run gst_soup_http_sink_init
    [SetLocation (Some target); SetCaps (Some [bufH]); Start; Render bufA;
     Idle; Render bufB;
     Callback 500 (Some "Internal Server Error"%string)]
  = Some latched_state /\
  status_code latched_state = 500 /\
  length (soup_log latched_state) = 1%nat /\
  exists s : State,
    step latched_state Idle = Some s /\
    status_code s = 500 /\
    soup_log s
    = soup_log latched_state
      ++ [mkMessage "PUT" target [("Content-Range", "bytes 5-6/*")%string]
            [x42; x42] 0 None] /\
    soup_pending s
    = [mkMessage "PUT" target [("Content-Range", "bytes 5-6/*")%string]
         [x42; x42] 0 None].
Proof.
  repeat split.
  eexists. repeat split.
Qed.

(** ** The bytes of a session, in order *)

Lemma payload_bytes_app (a b : list GstBuffer) :
  payload_bytes (a ++ b) = payload_bytes a ++ payload_bytes b.
Proof.
  unfold payload_bytes, buffers_bytes. now rewrite filter_app, flat_map_app.
Qed.

Lemma rendered_app (a b : list Event) : rendered (a ++ b) = rendered a ++ rendered b.
Proof. unfold rendered. apply flat_map_app. Qed.

Section Stream.
Variable loc : string.
Variable headers : list GstBuffer.

Lemma stream_inv_offset_zero (given : list byte) (s : State) :
  stream_inv loc headers given s -> offset s = 0 -> soup_log s = [].
Proof.
  intros Hinv H0. destruct (soup_log s) as [|m l] eqn:Hlog; [reflexivity|].
  exfalso. assert (Hne : sent_bytes s <> []).
  { apply (inv_nonempty _ _ _ _ Hinv). rewrite Hlog. discriminate. }
  rewrite (inv_offset _ _ _ _ Hinv) in H0.
  destruct (sent_bytes s); [contradiction|simpl in H0; lia].
Qed.

(** The bytes of the request about to be built, against what was given. *)
Lemma stream_inv_request_bytes (given : list byte) (s : State) :
  stream_inv loc headers given s ->
  sent_bytes s ++ request_bytes s = buffers_bytes headers ++ given.
Proof.
  intros Hinv. pose proof (inv_bytes _ _ _ _ Hinv) as Hb.
  unfold request_bytes. rewrite (inv_headers _ _ _ _ Hinv).
  destruct (offset s =? 0) eqn:E.
  - apply Z.eqb_eq in E.
    pose proof (stream_inv_offset_zero _ _ Hinv E) as Hlog.
    unfold headers_if_sent, sent_bytes in *. rewrite Hlog in *.
    simpl in *. now rewrite Hb.
  - apply Z.eqb_neq in E.
    unfold headers_if_sent in Hb.
    destruct (soup_log s) as [|m l] eqn:Hlog.
    + exfalso. apply E. rewrite (inv_offset _ _ _ _ Hinv).
      unfold sent_bytes. rewrite Hlog. reflexivity.
    + simpl. exact Hb.
Qed.

Lemma dispatch_stream_inv (given : list byte) (s : State) :
  stream_inv loc headers given s ->
  Z.of_nat (length (buffers_bytes headers ++ given)) < 2 ^ 64 ->
  stream_inv loc headers given (send_message_locked s).
Proof.
  intros Hinv Hbound.
  pose proof (stream_inv_request_bytes _ _ Hinv) as Hreq.
  assert (Hlen : Z.of_nat (length (sent_bytes s))
                 + Z.of_nat (length (request_bytes s)) < 2 ^ 64).
  { rewrite <- Hreq, length_app, Nat2Z.inj_add in Hbound. exact Hbound. }
  destruct Hinv as [Hl Hh Hs Ho Hne Hb].
  destruct (send_message_locked_result s) as [_|_ _ Hdrop|loc' _ _ Hl' Hn].
  - constructor; assumption.
  - destruct Hdrop as [Hnone|Hzero]; [congruence|].
    apply request_size_zero in Hzero; [|lia].
    unfold request_bytes in Hzero. apply app_eq_nil in Hzero.
    destruct Hzero as [_ Hq]. rewrite Hq, app_nil_r in Hb.
    constructor; simpl; try assumption.
    unfold headers_if_sent, sent_bytes in *. simpl.
    rewrite app_nil_r. exact Hb.
  - assert (Hsent : sent_bytes
                      (mkState (location s) (prop_session s)
                         (streamheader_buffers s) [] (queued_buffers s)
                         (Some (request_for loc' s))
                         (wrap64 (offset s + request_size s)) (status_code s)
                         (reason_phrase s)
                         (soup_pending s ++ [request_for loc' s])
                         (soup_log s ++ [request_for loc' s])
                         (idle_sources s) (unreffed s))
                    = sent_bytes s ++ request_bytes s).
    { unfold sent_bytes. simpl. rewrite flat_map_app. simpl.
      now rewrite app_nil_r. }
    constructor; try assumption.
    + rewrite Hsent. simpl. unfold request_size.
      rewrite (wrap64_small (Z.of_nat _)) by lia.
      rewrite Ho, wrap64_small by lia.
      now rewrite length_app, Nat2Z.inj_add.
    + intros _. rewrite Hsent. intros E. apply app_eq_nil in E.
      destruct E as [_ E]. exact (request_size_nonzero s Hn E).
    + rewrite Hsent. unfold headers_if_sent. simpl.
      destruct (soup_log s); simpl; unfold payload_bytes; simpl;
        rewrite app_nil_r; exact Hreq.
Qed.

Lemma step_stream_inv (given : list byte) (s s' : State) (e : Event) :
  stream_inv loc headers given s ->
  stream_event e = true ->
  step s e = Some s' ->
  Z.of_nat (length (buffers_bytes headers
                    ++ given ++ payload_bytes (rendered [e]))) < 2 ^ 64 ->
  stream_inv loc headers (given ++ payload_bytes (rendered [e])) s'.
Proof.
  intros Hinv He Hstep Hbound.
  destruct e; simpl in He, Hstep; try discriminate.
  - (* Render *)
    injection Hstep as <-. destruct Hinv as [Hl Hh Hs Ho Hne Hb].
    unfold gst_soup_http_sink_render. rewrite Hs, Hl. simpl.
    assert (Hb' : sent_bytes s ++ payload_bytes (queued_buffers s ++ [buffer])
                  = headers_if_sent headers s
                    ++ given ++ payload_bytes [buffer]).
    { rewrite payload_bytes_app, !app_assoc, Hb. reflexivity. }
    destruct (queued_buffers s); constructor; assumption.
  - (* Idle *)
    destruct (idle_sources s) as [|k]; [discriminate|].
    injection Hstep as <-. unfold send_message.
    simpl in *. rewrite app_nil_r in *.
    apply dispatch_stream_inv; [|exact Hbound].
    destruct Hinv. constructor; assumption.
  - (* Callback *)
    destruct (soup_pending s) as [|m pending]; [discriminate|].
    injection Hstep as <-. unfold callback. simpl.
    rewrite He. simpl in *. rewrite app_nil_r in *.
    apply dispatch_stream_inv; [|exact Hbound].
    destruct Hinv. constructor; assumption.
Qed.

Lemma run_stream_inv (events : list Event) :
  forall (given : list byte) (s s' : State),
  stream_inv loc headers given s ->
  forallb stream_event events = true ->
  run s events = Some s' ->
  Z.of_nat (length (buffers_bytes headers
                    ++ given ++ payload_bytes (rendered events))) < 2 ^ 64 ->
  stream_inv loc headers (given ++ payload_bytes (rendered events)) s'.
Proof.
  induction events as [|e events IH]; intros given s s' Hinv Hev Hrun Hbound.
  - simpl in *. injection Hrun as <-.
    unfold payload_bytes. simpl. rewrite app_nil_r. exact Hinv.
  - simpl in Hev, Hrun. apply andb_prop in Hev. destruct Hev as [He Hev].
    destruct (step s e) as [s1|] eqn:Hstep; [|discriminate].
    change (e :: events) with ([e] ++ events) in *.
    rewrite rendered_app, payload_bytes_app in *.
    rewrite app_assoc. apply (IH _ s1 s'); auto.
    + apply (step_stream_inv given s s1 e); auto.
      rewrite !length_app, !Nat2Z.inj_add in *. lia.
    + rewrite <- app_assoc. exact Hbound.
Qed.
End Stream.

(** C1: a session sets its location and its stream headers, starts, and
    then renders buffers while idle sources run and requests succeed.  At
    every moment the bodies of all the requests handed to the session, put
    end to end and followed by the bytes still queued, are the stream
    headers (if any request was sent at all; they go into the request
    built at offset 0 only) followed by the bytes of the rendered buffers,
    in the order they were rendered, the buffers that carry the IN_CAPS
    flag left out.  So once the queue is empty the bodies alone are exactly
    these bytes.  The total is taken to fit the 64-bit counter. *)
Theorem stream_bytes_in_order (loc : string) (headers : list GstBuffer)
  (events : list Event) (s : State) :
  forallb stream_event events = true ->
  run gst_soup_http_sink_init
    (SetLocation (Some loc) :: SetCaps (Some headers) :: Start :: events)
  = Some s ->
  Z.of_nat (length (buffers_bytes headers ++ payload_bytes (rendered events)))
  < 2 ^ 64 ->
  sent_bytes s ++ payload_bytes (queued_buffers s)
  = headers_if_sent headers s ++ payload_bytes (rendered events) /\
  (queued_buffers s = [] ->
   sent_bytes s
   = headers_if_sent headers s ++ payload_bytes (rendered events)).
Proof.
  intros Hev Hrun Hbound.
  change (run gst_soup_http_sink_init
            (SetLocation (Some loc) :: SetCaps (Some headers) :: Start :: events))
    with (run (gst_soup_http_sink_set_caps (Some headers)
                 (set_property_location (Some loc) gst_soup_http_sink_init))
            events) in Hrun.
  rewrite set_caps_closed_form in Hrun.
  assert (Hinv : stream_inv loc headers ([] ++ payload_bytes (rendered events)) s).
  { eapply run_stream_inv; [|exact Hev|exact Hrun|exact Hbound].
    constructor; simpl; try reflexivity. intros H. now contradiction H. }
  pose proof (inv_bytes _ _ _ _ Hinv) as Hb. simpl in Hb.
  split; [exact Hb|].
  intros Hq. rewrite Hq in Hb. unfold payload_bytes at 1 in Hb. simpl in Hb.
  rewrite app_nil_r in Hb. exact Hb.
Qed.

Lemma stream_bytes_in_order_witness :
  forallb stream_event sample_events = true /\
  run gst_soup_http_sink_init
    (SetLocation (Some target) :: SetCaps (Some [bufH]) :: Start
     :: sample_events)
  = Some sample_end /\
  Z.of_nat (length (buffers_bytes [bufH] ++ payload_bytes (rendered sample_events)))
  < 2 ^ 64 /\
  queued_buffers sample_end = [] /\
  sent_bytes sample_end
  = headers_if_sent [bufH] sample_end ++ [x41; x41; x41; x42; x42; x43].
Proof.
  assert (Hb : Z.of_nat (length (buffers_bytes [bufH]
                                 ++ payload_bytes (rendered sample_events)))
               < 2 ^ 64) by (simpl; lia).
  split; [reflexivity|]. split; [reflexivity|]. split; [exact Hb|].
  split; [reflexivity|].
  exact (proj2 (stream_bytes_in_order target [bufH] sample_events sample_end
                  eq_refl eq_refl Hb) eq_refl).
Defined.

(** * Further properties of the engine *)

(** ** Stream headers *)

(** X1: [gst_soup_http_sink_set_caps] with a "streamheader" field makes
    the stream headers exactly the buffers of the field, in their order,
    and unrefs the headers held before; caps without the field change
    nothing; and in both cases the queue, the request in flight, the offset
    and the recorded error stay as they are.  A second capture unrefs the
    buffers of the first. *)
Theorem set_caps_replaces_headers (value_array : option (list GstBuffer))
  (s : State) :
  streamheader_buffers (gst_soup_http_sink_set_caps value_array s)
  = match value_array with
    | Some buffers => buffers
    | None => streamheader_buffers s
    end /\
  unreffed (gst_soup_http_sink_set_caps value_array s)
  = match value_array with
    | Some _ => unreffed s ++ streamheader_buffers s
    | None => unreffed s
    end /\
  (queued_buffers (gst_soup_http_sink_set_caps value_array s) = queued_buffers s /\
   sent_buffers (gst_soup_http_sink_set_caps value_array s) = sent_buffers s /\
   message (gst_soup_http_sink_set_caps value_array s) = message s /\
   offset (gst_soup_http_sink_set_caps value_array s) = offset s /\
   status_code (gst_soup_http_sink_set_caps value_array s) = status_code s /\
   soup_log (gst_soup_http_sink_set_caps value_array s) = soup_log s) /\
  forall first second : list GstBuffer,
    unreffed (gst_soup_http_sink_set_caps (Some second)
                (gst_soup_http_sink_set_caps (Some first) s))
    = unreffed s ++ streamheader_buffers s ++ first.
Proof.
  split; [|split; [|split]].
  - destruct value_array as [buffers|]; [|reflexivity].
    rewrite set_caps_closed_form. reflexivity.
  - destruct value_array as [buffers|]; [|reflexivity].
    rewrite set_caps_closed_form. reflexivity.
  - destruct value_array as [buffers|]; [|auto 10].
    rewrite set_caps_closed_form. simpl. auto 10.
  - intros first second. rewrite !set_caps_closed_form. simpl.
    now rewrite app_assoc.
Qed.

(** ** Bursts of renders *)

Lemma render_accepted (buffer : GstBuffer) (s : State) (loc : string) :
  status_code s = 0 -> location s = Some loc ->
  gst_soup_http_sink_render buffer s
  = (set_idle_sources (set_queued_buffers s (queued_buffers s ++ [buffer]))
       (idle_sources s + burst_wake s [buffer]),
     GST_FLOW_OK, None).
Proof.
  intros Hs Hl. unfold gst_soup_http_sink_render, burst_wake.
  rewrite Hs, Hl. simpl.
  destruct (queued_buffers s) eqn:Hq; simpl.
  - rewrite Nat.add_1_r. reflexivity.
  - rewrite Nat.add_0_r. unfold set_idle_sources, set_queued_buffers. simpl.
    reflexivity.
Qed.

(** X2: with a location set and no error recorded, rendering a list of
    buffers one after the other returns GST_FLOW_OK every time, puts the
    buffers at the end of the queue in the order given, and attaches one
    idle source if the queue was empty before the first of them and none
    otherwise; nothing is handed to the session by the renders
    themselves. *)
Theorem render_burst (buffers : list GstBuffer) (s : State) :
  status_code s = 0 -> location s <> None ->
  snd (render_all buffers s) = map (fun _ => (GST_FLOW_OK, None)) buffers /\
  queued_buffers (fst (render_all buffers s)) = queued_buffers s ++ buffers /\
  idle_sources (fst (render_all buffers s))
  = (idle_sources s + burst_wake s buffers)%nat /\
  soup_log (fst (render_all buffers s)) = soup_log s /\
  soup_pending (fst (render_all buffers s)) = soup_pending s /\
  offset (fst (render_all buffers s)) = offset s.
Proof.
  revert s. induction buffers as [|b buffers IH]; intros s Hs Hl.
  - simpl. unfold burst_wake. rewrite app_nil_r.
    destruct (queued_buffers s); rewrite Nat.add_0_r; auto 10.
  - destruct (location s) as [loc|] eqn:Hloc; [|contradiction].
    simpl. rewrite (render_accepted b s loc Hs Hloc).
    match goal with
    | |- context [render_all buffers ?x] =>
        destruct (IH x) as (H1 & H2 & H3 & H4 & H5 & H6);
          [exact Hs|simpl; rewrite Hloc; discriminate|];
          destruct (render_all buffers x) as [s2 rets]
    end.
    simpl in *. rewrite H1, H2, H3, H4, H5, H6.
    repeat split.
    + now rewrite <- app_assoc.
    + unfold burst_wake. simpl.
      destruct (queued_buffers s); simpl; destruct buffers; simpl; lia.
Qed.

Lemma render_burst_witness :
  status_code drained_state = 0 /\
  location drained_state <> None /\
  queued_buffers (fst (render_all [bufB; bufC; bufD] drained_state))
  = [] ++ [bufB; bufC; bufD] /\
  idle_sources (fst (render_all [bufB; bufC; bufD] drained_state)) = 1%nat.
Proof.
  assert (Hs : status_code drained_state = 0) by reflexivity.
  assert (Hl : location drained_state <> None) by discriminate.
  split; [exact Hs|]. split; [exact Hl|].
  destruct (render_burst [bufB; bufC; bufD] drained_state Hs Hl)
    as (_ & H2 & H3 & _).
  split; [exact H2|exact H3].
Defined.

(** ** What a dispatch and a completion leave in the queue *)

Lemma dispatch_takes_whole_queue (s : State) :
  message s = None ->
  queued_buffers (send_message_locked s) = [] /\
  match message (send_message_locked s) with
  | Some _ =>
      sent_buffers (send_message_locked s) = queued_buffers s /\
      unreffed (send_message_locked s) = unreffed s
  | None =>
      sent_buffers (send_message_locked s) = sent_buffers s /\
      unreffed (send_message_locked s) = unreffed s ++ queued_buffers s
  end.
Proof.
  intros Hm.
  destruct (send_message_locked_result s) as [[Hq|Hn]|_ _ _|loc _ _ _ _].
  - rewrite Hm, Hq, app_nil_r. auto.
  - contradiction.
  - simpl. auto.
  - simpl. auto.
Qed.

Lemma dispatch_slot_filled (s : State) :
  message s <> None -> send_message_locked s = s.
Proof.
  intros Hm. unfold send_message_locked.
  destruct (queued_buffers s); [reflexivity|].
  destruct (message s); [reflexivity|contradiction].
Qed.

Lemma callback_success_empties_queue (msg : SoupMessage) (s : State) :
  SOUP_STATUS_IS_SUCCESSFUL (msg_status_code msg) = true ->
  queued_buffers (callback msg s) = [].
Proof.
  intros Hok. unfold callback. rewrite Hok. simpl.
  match goal with
  | |- context [send_message_locked ?x] =>
      exact (proj1 (dispatch_takes_whole_queue x eq_refl))
  end.
Qed.

(** X3: after a request has succeeded the queue is empty, whatever was
    queued while it was pending: the buffers of the finished request are
    unreffed, and the buffers queued meanwhile either all go into one new
    request (they become the sent buffers) or, when no request results, are
    all unreffed as well. *)
Theorem queue_empty_after_success (msg : SoupMessage) (s : State) :
  SOUP_STATUS_IS_SUCCESSFUL (msg_status_code msg) = true ->
  queued_buffers (callback msg s) = [] /\
  match message (callback msg s) with
  | Some _ =>
      sent_buffers (callback msg s) = queued_buffers s /\
      unreffed (callback msg s) = unreffed s ++ sent_buffers s
  | None =>
      sent_buffers (callback msg s) = [] /\
      unreffed (callback msg s)
      = unreffed s ++ sent_buffers s ++ queued_buffers s
  end.
Proof.
  intros Hok. unfold callback. rewrite Hok. simpl.
  match goal with
  | |- context [send_message_locked ?x] =>
      destruct (dispatch_takes_whole_queue x eq_refl) as [Hq Hrest];
        destruct (message (send_message_locked x))
  end.
  - split; [exact Hq|]. exact Hrest.
  - split; [exact Hq|]. destruct Hrest as [H1 H2].
    split; [exact H1|]. rewrite H2. simpl. now rewrite app_assoc.
Qed.

Lemma queue_empty_after_success_witness :
  SOUP_STATUS_IS_SUCCESSFUL 200 = true /\
  queued_buffers
    (callback (mkMessage "PUT" target [] [x48; x31; x41; x41; x41] 200
                 (Some "OK"%string))
       (set_queued_buffers in_flight_state [bufB; bufC])) = [] /\
  sent_buffers
    (callback (mkMessage "PUT" target [] [x48; x31; x41; x41; x41] 200
                 (Some "OK"%string))
       (set_queued_buffers in_flight_state [bufB; bufC])) = [bufB; bufC].
Proof.
  split; [reflexivity|].
  destruct (queue_empty_after_success
              (mkMessage "PUT" target [] [x48; x31; x41; x41; x41] 200
                 (Some "OK"%string))
              (set_queued_buffers in_flight_state [bufB; bufC]) eq_refl)
    as [H1 H2].
  split; [exact H1|]. exact (proj1 H2).
Defined.

(** ** Nothing waits in vain *)

Lemma step_dispatch_owed (s s' : State) (e : Event) :
  keeps_latch e = true -> step s e = Some s' ->
  dispatch_owed s -> dispatch_owed s'.
Proof.
  unfold dispatch_owed. intros Hk Hstep Hinv.
  destruct e; simpl in Hk, Hstep; try discriminate.
  - injection Hstep as <-. exact Hinv.
  - injection Hstep as <-. exact Hinv.
  - injection Hstep as <-. destruct value_array as [buffers|]; [|exact Hinv].
    rewrite set_caps_closed_form. exact Hinv.
  - injection Hstep as <-. exact Hinv.
  - injection Hstep as <-. unfold gst_soup_http_sink_render.
    destruct (negb (status_code s =? 0)); simpl; [exact Hinv|].
    destruct (location s); [|exact Hinv].
    destruct (queued_buffers s) as [|b q] eqn:Hq; simpl.
    + intros _ _. lia.
    + intros _ Hm. apply Hinv; [discriminate|exact Hm].
  - destruct (idle_sources s) as [|k]; [discriminate|].
    injection Hstep as <-. unfold send_message. intros Hq Hm.
    destruct (message s) eqn:Hms.
    + exfalso. rewrite dispatch_slot_filled in Hm.
      * simpl in Hm. congruence.
      * simpl. rewrite Hms. discriminate.
    + exfalso. apply Hq.
      exact (proj1 (dispatch_takes_whole_queue (set_idle_sources s k) Hms)).
  - destruct (soup_pending s) as [|msg pending]; [discriminate|].
    injection Hstep as <-. intros Hq _. exfalso. apply Hq.
    exact (callback_success_empties_queue
             (soup_message_finished msg status reason) _ Hk).
Qed.

Lemma run_dispatch_owed (events : list Event) : forall s s' : State,
  forallb keeps_latch events = true -> run s events = Some s' ->
  dispatch_owed s -> dispatch_owed s'.
Proof.
  induction events as [|e events IH]; intros s s' Hk Hrun Hinv; simpl in *.
  - injection Hrun as <-. exact Hinv.
  - apply andb_prop in Hk. destruct Hk as [He Hk].
    destruct (step s e) as [s1|] eqn:Hstep; [|discriminate].
    exact (IH _ _ Hk Hrun (step_dispatch_owed _ _ _ He Hstep Hinv)).
Qed.

(** X4: in a run from the initial object in which no request fails and
    the sink is not stopped, queued buffers never wait in vain: whenever
    buffers are queued and no request is in flight, an idle source that
    will dispatch them is pending.  So with no request in flight and no
    idle source pending, the queue is empty. *)
Theorem no_buffer_stranded (events : list Event) (s : State) :
  forallb keeps_latch events = true ->
  run gst_soup_http_sink_init events = Some s ->
  (queued_buffers s <> [] -> message s = None -> (0 < idle_sources s)%nat) /\
  (message s = None -> idle_sources s = 0%nat -> queued_buffers s = []).
Proof.
  intros Hk Hrun.
  assert (Hinv : dispatch_owed s).
  { apply (run_dispatch_owed events gst_soup_http_sink_init); auto.
    intros H. now contradiction H. }
  split; [exact Hinv|].
  intros Hm Hi. destruct (queued_buffers s) as [|b q] eqn:Hq; [reflexivity|].
  exfalso. unfold dispatch_owed in Hinv. rewrite Hq in Hinv.
  assert (0 < idle_sources s)%nat by (apply Hinv; [discriminate|exact Hm]).
  lia.
Qed.

Lemma no_buffer_stranded_witness :
  forallb keeps_latch
    [SetLocation (Some target); SetCaps (Some [bufH]); Start; Render bufA]
  = true /\
  run gst_soup_http_sink_init
    [SetLocation (Some target); SetCaps (Some [bufH]); Start; Render bufA]
  = Some armed_state /\
  queued_buffers armed_state <> [] /\
  message armed_state = None /\
  (0 < idle_sources armed_state)%nat.
Proof.
  assert (Hq : queued_buffers armed_state <> []) by discriminate.
  split; [reflexivity|]. split; [reflexivity|].
  split; [exact Hq|]. split; [reflexivity|].
  exact (proj1 (no_buffer_stranded
                  [SetLocation (Some target); SetCaps (Some [bufH]); Start;
                   Render bufA] armed_state eq_refl eq_refl) Hq eq_refl).
Defined.

(** ** The slot and the session *)

Lemma dispatch_slot_is_pending (s : State) :
  slot_is_pending s -> slot_is_pending (send_message_locked s).
Proof.
  unfold slot_is_pending. intros Hinv.
  destruct (send_message_locked_result s) as [_|_ Hm _|loc _ Hm _ _]; simpl.
  - exact Hinv.
  - rewrite Hm in Hinv. exact Hinv.
  - rewrite Hm in Hinv. rewrite Hinv. reflexivity.
Qed.

Lemma step_slot_is_pending (s s' : State) (e : Event) :
  not_stop e = true -> step s e = Some s' ->
  slot_is_pending s -> slot_is_pending s'.
Proof.
  intros Hk Hstep Hinv. destruct e; simpl in Hk, Hstep; try discriminate.
  - injection Hstep as <-. exact Hinv.
  - injection Hstep as <-. exact Hinv.
  - injection Hstep as <-. destruct value_array as [buffers|]; [|exact Hinv].
    rewrite set_caps_closed_form. exact Hinv.
  - injection Hstep as <-. exact Hinv.
  - injection Hstep as <-. unfold gst_soup_http_sink_render.
    destruct (negb (status_code s =? 0)); simpl; [exact Hinv|].
    destruct (location s); [|exact Hinv].
    destruct (queued_buffers s); exact Hinv.
  - destruct (idle_sources s) as [|k]; [discriminate|].
    injection Hstep as <-. apply dispatch_slot_is_pending. exact Hinv.
  - destruct (soup_pending s) as [|msg pending] eqn:Hp; [discriminate|].
    injection Hstep as <-. unfold slot_is_pending in Hinv.
    rewrite Hp in Hinv.
    assert (pending = []) as ->.
    { destruct (message s); [|discriminate]. now injection Hinv. }
    unfold callback. destruct (negb (SOUP_STATUS_IS_SUCCESSFUL _)).
    + reflexivity.
    + apply dispatch_slot_is_pending. reflexivity.
Qed.

Lemma run_slot_is_pending (events : list Event) : forall s s' : State,
  forallb not_stop events = true -> run s events = Some s' ->
  slot_is_pending s -> slot_is_pending s'.
Proof.
  induction events as [|e events IH]; intros s s' Hk Hrun Hinv; simpl in *.
  - injection Hrun as <-. exact Hinv.
  - apply andb_prop in Hk. destruct Hk as [He Hk].
    destruct (step s e) as [s1|] eqn:Hstep; [|discriminate].
    exact (IH _ _ Hk Hrun (step_slot_is_pending _ _ _ He Hstep Hinv)).
Qed.

(** X5: as long as the sink is not stopped, the [message] slot tells what
    the session holds: a filled slot means the session holds exactly that
    message, an empty slot means it holds none, also after failed
    requests.  (A stop aborts the session and leaves the slot as it is.) *)
Theorem slot_matches_session (events : list Event) (s : State) :
  forallb not_stop events = true ->
  run gst_soup_http_sink_init events = Some s ->
  soup_pending s
  = match message s with
    | Some msg => [msg]
    | None => []
    end.
Proof.
  intros Hk Hrun.
  apply (run_slot_is_pending events gst_soup_http_sink_init); auto.
  reflexivity.
Qed.

Lemma slot_matches_session_witness :
  forallb not_stop
    [SetLocation (Some target); SetCaps (Some [bufH]); Start; Render bufA;
     Idle; Render bufB;
     Callback 500 (Some "Internal Server Error"%string)] = true /\
  run gst_soup_http_sink_init
    [SetLocation (Some target); SetCaps (Some [bufH]); Start; Render bufA;
     Idle; Render bufB;
     Callback 500 (Some "Internal Server Error"%string)]
  = Some latched_state /\
  soup_pending latched_state = [].
Proof.
  split; [reflexivity|]. split; [reflexivity|].
  exact (slot_matches_session
           [SetLocation (Some target); SetCaps (Some [bufH]); Start;
            Render bufA; Idle; Render bufB;
            Callback 500 (Some "Internal Server Error"%string)]
           latched_state eq_refl eq_refl).
Defined.

(** ** Where the buffers are *)

Lemma dispatch_keeps_location (s : State) :
  location (send_message_locked s) = location s.
Proof. destruct (send_message_locked_result s); reflexivity. Qed.

Lemma dispatch_conserved (loc : string) (given : list GstBuffer) (s : State) :
  conserved loc given s -> conserved loc given (send_message_locked s).
Proof.
  intros (Hl & Hs & Hg & Hsent).
  destruct (message s) as [m|] eqn:Hm.
  - rewrite dispatch_slot_filled by (rewrite Hm; discriminate).
    repeat split; auto. congruence.
  - pose proof (dispatch_takes_whole_queue s Hm) as [Hq Hrest].
    repeat split.
    + now rewrite dispatch_keeps_location.
    + now rewrite (proj1 (dispatch_keeps_latch s)).
    + rewrite Hq, app_nil_r.
      destruct (message (send_message_locked s));
        destruct Hrest as [H1 H2]; rewrite H1, H2, Hg, (Hsent eq_refl).
      * reflexivity.
      * simpl. now rewrite app_nil_r.
    + intros Hnone. rewrite Hnone in Hrest. destruct Hrest as [H1 _].
      rewrite H1. exact (Hsent eq_refl).
Qed.

Lemma step_conserved (loc : string) (given : list GstBuffer) (s s' : State)
  (e : Event) :
  stream_event e = true -> step s e = Some s' ->
  conserved loc given s -> conserved loc (given ++ rendered [e]) s'.
Proof.
  intros He Hstep Hinv. destruct e; simpl in He, Hstep; try discriminate.
  - injection Hstep as <-. destruct Hinv as (Hl & Hs & Hg & Hsent).
    rewrite (render_accepted buffer s loc Hs Hl). simpl.
    repeat split; auto. simpl. rewrite Hg, !app_assoc. reflexivity.
  - destruct (idle_sources s) as [|k]; [discriminate|].
    injection Hstep as <-. simpl. rewrite app_nil_r.
    apply dispatch_conserved. exact Hinv.
  - destruct (soup_pending s) as [|m pending]; [discriminate|].
    injection Hstep as <-. simpl. rewrite app_nil_r.
    unfold callback. simpl. rewrite He. simpl.
    apply dispatch_conserved.
    destruct Hinv as (Hl & Hs & Hg & Hsent).
    repeat split; auto. simpl. rewrite Hg, app_assoc. reflexivity.
Qed.

Lemma run_conserved (loc : string) (events : list Event) :
  forall (given : list GstBuffer) (s s' : State),
  forallb stream_event events = true -> run s events = Some s' ->
  conserved loc given s -> conserved loc (given ++ rendered events) s'.
Proof.
  induction events as [|e events IH]; intros given s s' Hev Hrun Hinv.
  - simpl in *. injection Hrun as <-. rewrite app_nil_r. exact Hinv.
  - simpl in Hev, Hrun. apply andb_prop in Hev. destruct Hev as [He Hev].
    destruct (step s e) as [s1|] eqn:Hstep; [|discriminate].
    change (e :: events) with ([e] ++ events).
    rewrite rendered_app, app_assoc.
    exact (IH _ _ _ Hev Hrun (step_conserved _ _ _ _ _ He Hstep Hinv)).
Qed.

(** X6: in a session that streams to one location without a failure, the
    buffers rendered so far, in the order they were rendered, are the
    buffers already unreffed, followed by the buffers of the request in
    flight, followed by the queued buffers: no buffer is unreffed twice or
    out of turn, and none is lost.  With no request in flight there are no
    sent buffers. *)
Theorem buffers_conserved (loc : string) (headers : list GstBuffer)
  (events : list Event) (s : State) :
  forallb stream_event events = true ->
  run gst_soup_http_sink_init
    (SetLocation (Some loc) :: SetCaps (Some headers) :: Start :: events)
  = Some s ->
  rendered events = unreffed s ++ sent_buffers s ++ queued_buffers s /\
  (message s = None -> sent_buffers s = []).
Proof.
  intros Hev Hrun.
  change (run gst_soup_http_sink_init
            (SetLocation (Some loc) :: SetCaps (Some headers) :: Start :: events))
    with (run (gst_soup_http_sink_set_caps (Some headers)
                 (set_property_location (Some loc) gst_soup_http_sink_init))
            events) in Hrun.
  rewrite set_caps_closed_form in Hrun.
  assert (Hinv : conserved loc ([] ++ rendered events) s).
  { apply (run_conserved loc events [] _ s Hev Hrun).
    repeat split; reflexivity. }
  destruct Hinv as (_ & _ & Hg & Hsent). split; [exact Hg|exact Hsent].
Qed.

Lemma buffers_conserved_witness :
  forallb stream_event
    [Render bufA; Idle; Render bufB; Render bufC;
     Callback 200 (Some "OK"%string); Render bufD] = true /\
  run gst_soup_http_sink_init
    (SetLocation (Some target) :: SetCaps (Some [bufH]) :: Start
     :: [Render bufA; Idle; Render bufB; Render bufC;
         Callback 200 (Some "OK"%string); Render bufD])
  = Some conserved_end /\
  [bufA; bufB; bufC; bufD]
  = unreffed conserved_end ++ sent_buffers conserved_end
    ++ queued_buffers conserved_end /\
  unreffed conserved_end = [bufA] /\
  sent_buffers conserved_end = [bufB; bufC] /\
  queued_buffers conserved_end = [bufD].
Proof.
  split; [reflexivity|]. split; [reflexivity|].
  split; [|repeat split].
  exact (proj1 (buffers_conserved target [bufH]
                  [Render bufA; Idle; Render bufB; Render bufC;
                   Callback 200 (Some "OK"%string); Render bufD]
                  conserved_end eq_refl eq_refl)).
Defined.

(** ** The Content-Range headers of a session *)

Lemma ranges_from_app (log : list SoupMessage) : forall (start : Z)
  (msg : SoupMessage),
  ranges_from start log ->
  request_headers msg
  = (if start + Z.of_nat (length (flat_map request_body log)) =? 0 then []
     else [("Content-Range"%string,
            content_range
              (start + Z.of_nat (length (flat_map request_body log)))
              (start + Z.of_nat (length (flat_map request_body log))
               + Z.of_nat (length (request_body msg)) - 1))]) ->
  ranges_from start (log ++ [msg]).
Proof.
  induction log as [|m log IH]; intros start msg Hlog Hmsg; simpl in *.
  - rewrite Z.add_0_r in Hmsg. auto.
  - destruct Hlog as [Hm Hlog]. split; [exact Hm|].
    apply IH; [exact Hlog|].
    rewrite length_app, Nat2Z.inj_add, Z.add_assoc in Hmsg. exact Hmsg.
Qed.

Section Ranges.
Variable loc : string.
Variable headers : list GstBuffer.

Lemma dispatch_ranges (given : list byte) (s : State) :
  stream_inv loc headers given s ->
  Z.of_nat (length (buffers_bytes headers ++ given)) < 2 ^ 64 ->
  ranges_from 0 (soup_log s) /\
  Forall (fun msg => method msg = "PUT"%string /\ uri msg = loc) (soup_log s) ->
  ranges_from 0 (soup_log (send_message_locked s)) /\
  Forall (fun msg => method msg = "PUT"%string /\ uri msg = loc)
    (soup_log (send_message_locked s)).
Proof.
  intros Hinv Hbound [Hr Hput].
  pose proof (stream_inv_request_bytes _ _ _ _ Hinv) as Hreq.
  assert (Hlen : Z.of_nat (length (sent_bytes s))
                 + Z.of_nat (length (request_bytes s)) < 2 ^ 64).
  { rewrite <- Hreq, length_app, Nat2Z.inj_add in Hbound. exact Hbound. }
  pose proof (inv_offset _ _ _ _ Hinv) as Ho.
  pose proof (inv_location _ _ _ _ Hinv) as Hl.
  destruct (send_message_locked_result s) as [_|_ _ _|loc' _ _ Hl' Hn];
    simpl; auto.
  assert (loc' = loc) as -> by congruence.
  assert (Hpos : 0 < Z.of_nat (length (request_bytes s))).
  { pose proof (request_size_nonzero s Hn).
    destruct (request_bytes s); [contradiction|simpl; lia]. }
  split.
  - apply ranges_from_app; [exact Hr|]. simpl.
    fold (sent_bytes s). rewrite <- Ho. unfold request_size.
    rewrite (wrap64_small (Z.of_nat _)) by lia.
    destruct (offset s =? 0); [reflexivity|].
    rewrite wrap64_small by lia. reflexivity.
  - apply Forall_app. split; [exact Hput|].
    constructor; [|constructor]. simpl. auto.
Qed.

Lemma run_ranges (events : list Event) :
  forall (given : list byte) (s s' : State),
  stream_inv loc headers given s ->
  forallb stream_event events = true ->
  run s events = Some s' ->
  Z.of_nat (length (buffers_bytes headers
                    ++ given ++ payload_bytes (rendered events))) < 2 ^ 64 ->
  ranges_from 0 (soup_log s) /\
  Forall (fun msg => method msg = "PUT"%string /\ uri msg = loc) (soup_log s) ->
  ranges_from 0 (soup_log s') /\
  Forall (fun msg => method msg = "PUT"%string /\ uri msg = loc) (soup_log s').
Proof.
  induction events as [|e events IH];
    intros given s s' Hinv Hev Hrun Hbound Hr.
  - simpl in Hrun. injection Hrun as <-. exact Hr.
  - simpl in Hev, Hrun. apply andb_prop in Hev. destruct Hev as [He Hev].
    destruct (step s e) as [s1|] eqn:Hstep; [|discriminate].
    change (e :: events) with ([e] ++ events) in Hbound.
    rewrite rendered_app, payload_bytes_app in Hbound.
    assert (Hb1 : Z.of_nat (length (buffers_bytes headers
                                    ++ given ++ payload_bytes (rendered [e])))
                  < 2 ^ 64).
    { rewrite !length_app, !Nat2Z.inj_add in *. lia. }
    apply (IH (given ++ payload_bytes (rendered [e])) s1 s'); auto.
    + apply (step_stream_inv loc headers given s s1 e); auto.
    + rewrite <- app_assoc. exact Hbound.
    + destruct e; simpl in He, Hstep; try discriminate.
      * injection Hstep as <-.
        rewrite (render_accepted buffer s loc
                   (inv_status _ _ _ _ Hinv) (inv_location _ _ _ _ Hinv)).
        exact Hr.
      * destruct (idle_sources s) as [|k]; [discriminate|].
        injection Hstep as <-. unfold send_message.
        simpl in Hb1. rewrite app_nil_r in Hb1.
        apply (dispatch_ranges given); auto.
        destruct Hinv. constructor; assumption.
      * destruct (soup_pending s) as [|m pending]; [discriminate|].
        injection Hstep as <-. unfold callback. simpl. rewrite He. simpl.
        simpl in Hb1. rewrite app_nil_r in Hb1.
        apply (dispatch_ranges given); auto.
        destruct Hinv. constructor; assumption.
Qed.
End Ranges.

(** X7: in a session that streams to one location without a failure, every
    request handed to the session is a PUT to that location, and the
    Content-Range headers tile the byte stream: the first request has no
    header, and every later one carries "bytes first-last/*" where first
    is the total length of the bodies before it and last - first + 1 is the
    length of its own body.  The total is taken to fit the 64-bit
    counter. *)
Theorem content_ranges_tile (loc : string) (headers : list GstBuffer)
  (events : list Event) (s : State) :
  forallb stream_event events = true ->
  run gst_soup_http_sink_init
    (SetLocation (Some loc) :: SetCaps (Some headers) :: Start :: events)
  = Some s ->
  Z.of_nat (length (buffers_bytes headers ++ payload_bytes (rendered events)))
  < 2 ^ 64 ->
  ranges_from 0 (soup_log s) /\
  Forall (fun msg => method msg = "PUT"%string /\ uri msg = loc) (soup_log s).
Proof.
  intros Hev Hrun Hbound.
  change (run gst_soup_http_sink_init
            (SetLocation (Some loc) :: SetCaps (Some headers) :: Start :: events))
    with (run (gst_soup_http_sink_set_caps (Some headers)
                 (set_property_location (Some loc) gst_soup_http_sink_init))
            events) in Hrun.
  rewrite set_caps_closed_form in Hrun.
  eapply (run_ranges loc headers events []); [|exact Hev|exact Hrun|exact Hbound|].
  - constructor; simpl; try reflexivity. intros H. now contradiction H.
  - simpl. split; [exact I|constructor].
Qed.

Lemma content_ranges_tile_witness :
  forallb stream_event sample_events = true /\
  run gst_soup_http_sink_init
    (SetLocation (Some target) :: SetCaps (Some [bufH]) :: Start
     :: sample_events)
  = Some sample_end /\
  Z.of_nat (length (buffers_bytes [bufH] ++ payload_bytes (rendered sample_events)))
  < 2 ^ 64 /\
  map request_headers (soup_log sample_end)
  = [[]; [("Content-Range", "bytes 5-7/*")%string]] /\
  ranges_from 0 (soup_log sample_end).
Proof.
  assert (Hb : Z.of_nat (length (buffers_bytes [bufH]
                                 ++ payload_bytes (rendered sample_events)))
               < 2 ^ 64) by (simpl; lia).
  split; [reflexivity|]. split; [reflexivity|]. split; [exact Hb|].
  split; [reflexivity|].
  exact (proj1 (content_ranges_tile target [bufH] sample_events sample_end
                  eq_refl eq_refl Hb)).
Defined.

(** X8: in such a session the offset is the number of bytes handed to the
    session so far, and once the queue is empty it is the length of the
    stream headers (if anything was sent) plus the length of everything
    rendered without the IN_CAPS flag. *)
Theorem offset_counts_sent_bytes (loc : string) (headers : list GstBuffer)
  (events : list Event) (s : State) :
  forallb stream_event events = true ->
  run gst_soup_http_sink_init
    (SetLocation (Some loc) :: SetCaps (Some headers) :: Start :: events)
  = Some s ->
  Z.of_nat (length (buffers_bytes headers ++ payload_bytes (rendered events)))
  < 2 ^ 64 ->
  offset s = Z.of_nat (length (sent_bytes s)) /\
  (queued_buffers s = [] ->
   offset s
   = Z.of_nat (length (headers_if_sent headers s))
     + Z.of_nat (length (payload_bytes (rendered events)))).
Proof.
  intros Hev Hrun Hbound.
  change (run gst_soup_http_sink_init
            (SetLocation (Some loc) :: SetCaps (Some headers) :: Start :: events))
    with (run (gst_soup_http_sink_set_caps (Some headers)
                 (set_property_location (Some loc) gst_soup_http_sink_init))
            events) in Hrun.
  rewrite set_caps_closed_form in Hrun.
  assert (Hinv : stream_inv loc headers ([] ++ payload_bytes (rendered events)) s).
  { eapply run_stream_inv; [|exact Hev|exact Hrun|exact Hbound].
    constructor; simpl; try reflexivity. intros H. now contradiction H. }
  pose proof (inv_offset _ _ _ _ Hinv) as Ho.
  pose proof (inv_bytes _ _ _ _ Hinv) as Hb. simpl in Hb.
  split; [exact Ho|].
  intros Hq. rewrite Hq in Hb. unfold payload_bytes at 1 in Hb. simpl in Hb.
  rewrite app_nil_r in Hb. rewrite Ho, Hb, length_app, Nat2Z.inj_add.
  reflexivity.
Qed.

Lemma offset_counts_sent_bytes_witness :
  forallb stream_event sample_events = true /\
  run gst_soup_http_sink_init
    (SetLocation (Some target) :: SetCaps (Some [bufH]) :: Start
     :: sample_events)
  = Some sample_end /\
  Z.of_nat (length (buffers_bytes [bufH] ++ payload_bytes (rendered sample_events)))
  < 2 ^ 64 /\
  queued_buffers sample_end = [] /\
  offset sample_end = 2 + 6.
Proof.
  assert (Hb : Z.of_nat (length (buffers_bytes [bufH]
                                 ++ payload_bytes (rendered sample_events)))
               < 2 ^ 64) by (simpl; lia).
  split; [reflexivity|]. split; [reflexivity|]. split; [exact Hb|].
  split; [reflexivity|].
  exact (proj2 (offset_counts_sent_bytes target [bufH] sample_events sample_end
                  eq_refl eq_refl Hb) eq_refl).
Defined.

(** ** A new location in mid-stream *)

(** X9: setting the location while buffers are queued and no request is
    in flight does not drop them: the next dispatch sends them to the new
    location, in a PUT without Content-Range whose body starts with the
    stream headers again, and the offset restarts at the length of that
    body.  (The bytes to send are taken to be some, and fewer than
    2^64.) *)
Theorem retarget_restarts_stream (loc : string) (s : State) :
  message s = None ->
  queued_buffers s <> [] ->
  buffers_bytes (streamheader_buffers s) ++ payload_bytes (queued_buffers s)
  <> [] ->
  Z.of_nat (length (buffers_bytes (streamheader_buffers s)
                    ++ payload_bytes (queued_buffers s))) < 2 ^ 64 ->
  soup_log (send_message_locked (set_property_location (Some loc) s))
  = soup_log s
    ++ [mkMessage "PUT" loc []
          (buffers_bytes (streamheader_buffers s)
           ++ payload_bytes (queued_buffers s)) 0 None] /\
  offset (send_message_locked (set_property_location (Some loc) s))
  = Z.of_nat (length (buffers_bytes (streamheader_buffers s)
                      ++ payload_bytes (queued_buffers s))) /\
  queued_buffers (send_message_locked (set_property_location (Some loc) s)) = [] /\
  sent_buffers (send_message_locked (set_property_location (Some loc) s))
  = queued_buffers s /\
  unreffed (send_message_locked (set_property_location (Some loc) s))
  = unreffed s.
Proof.
  intros Hm Hq Hne Hlt.
  assert (Hsize : request_size (set_property_location (Some loc) s)
                  = Z.of_nat (length (buffers_bytes (streamheader_buffers s)
                                      ++ payload_bytes (queued_buffers s)))).
  { unfold request_size, request_bytes. simpl. apply wrap64_small. lia. }
  destruct (send_message_locked_result (set_property_location (Some loc) s))
    as [[H|H]|_ _ [H|H]|loc' _ _ Hl _]; simpl in *.
  - contradiction.
  - contradiction.
  - discriminate.
  - exfalso. rewrite Hsize in H.
    destruct (buffers_bytes (streamheader_buffers s)
              ++ payload_bytes (queued_buffers s)); [contradiction|].
    simpl in H. lia.
  - injection Hl as <-. rewrite Hsize.
    unfold request_for, request_bytes. simpl.
    repeat split. apply wrap64_small. lia.
Qed.

Lemma retarget_restarts_stream_witness :
  message rearmed_state = None /\
  queued_buffers rearmed_state <> [] /\
  soup_log (send_message_locked
              (set_property_location (Some "http://other/f"%string)
                 rearmed_state))
  = soup_log rearmed_state
    ++ [mkMessage "PUT" "http://other/f" [] [x48; x31; x42; x42] 0 None] /\
  offset (send_message_locked
            (set_property_location (Some "http://other/f"%string)
               rearmed_state)) = 4.
Proof.
  assert (Hq : queued_buffers rearmed_state <> []) by discriminate.
  split; [reflexivity|]. split; [exact Hq|].
  assert (Hne : buffers_bytes (streamheader_buffers rearmed_state)
                ++ payload_bytes (queued_buffers rearmed_state) <> [])
    by discriminate.
  assert (Hlt : Z.of_nat (length (buffers_bytes (streamheader_buffers rearmed_state)
                                  ++ payload_bytes (queued_buffers rearmed_state)))
                < 2 ^ 64) by (simpl; lia).
  destruct (retarget_restarts_stream "http://other/f" rearmed_state
              eq_refl Hq Hne Hlt) as (H1 & H2 & _).
  split; [exact H1|exact H2].
Defined.

(** ** The log of requests *)

Lemma dispatch_log (s : State) :
  exists added : list SoupMessage,
    soup_log (send_message_locked s) = soup_log s ++ added /\
    Forall (fun msg => method msg = "PUT"%string /\ request_body msg <> [])
      added.
Proof.
  destruct (send_message_locked_result s) as [_|_ _ _|loc _ _ _ Hn]; simpl.
  - exists []. rewrite app_nil_r. auto.
  - exists []. rewrite app_nil_r. auto.
  - exists [request_for loc s]. split; [reflexivity|].
    constructor; [|constructor]. simpl.
    split; [reflexivity|exact (request_size_nonzero s Hn)].
Qed.

Lemma step_log (s s' : State) (e : Event) :
  step s e = Some s' ->
  exists added : list SoupMessage,
    soup_log s' = soup_log s ++ added /\
    Forall (fun msg => method msg = "PUT"%string /\ request_body msg <> [])
      added.
Proof.
  intros Hstep.
  assert (Hsame : soup_log s' = soup_log s ->
                  exists added : list SoupMessage,
                    soup_log s' = soup_log s ++ added /\
                    Forall (fun msg => method msg = "PUT"%string
                                       /\ request_body msg <> []) added).
  { intros H. exists []. rewrite app_nil_r. auto. }
  destruct e; simpl in Hstep.
  - injection Hstep as <-. apply Hsame. reflexivity.
  - injection Hstep as <-. apply Hsame. reflexivity.
  - injection Hstep as <-. apply Hsame.
    destruct value_array as [buffers|]; [|reflexivity].
    rewrite set_caps_closed_form. reflexivity.
  - injection Hstep as <-. apply Hsame. reflexivity.
  - injection Hstep as <-. apply Hsame. unfold gst_soup_http_sink_stop.
    destruct (prop_session s); reflexivity.
  - injection Hstep as <-. apply Hsame. unfold gst_soup_http_sink_render.
    destruct (negb (status_code s =? 0)); simpl; [reflexivity|].
    destruct (location s); [|reflexivity].
    destruct (queued_buffers s); reflexivity.
  - destruct (idle_sources s) as [|k]; [discriminate|].
    injection Hstep as <-. exact (dispatch_log (set_idle_sources s k)).
  - destruct (soup_pending s) as [|m pending]; [discriminate|].
    injection Hstep as <-. clear Hsame. unfold callback.
    destruct (negb (SOUP_STATUS_IS_SUCCESSFUL _)).
    + exists []. rewrite app_nil_r. auto.
    + match goal with
      | |- context [send_message_locked ?x] => exact (dispatch_log x)
      end.
Qed.

(** X10: whatever happens to the sink (property changes, stops, failures
    included), the requests handed to the session are never taken back or
    reordered, and every request it hands over is a PUT with a body that is
    not empty. *)
Theorem requests_are_nonempty_puts (events : list Event) (s s' : State) :
  run s events = Some s' ->
  exists added : list SoupMessage,
    soup_log s' = soup_log s ++ added /\
    Forall (fun msg => method msg = "PUT"%string /\ request_body msg <> [])
      added.
Proof.
  revert s. induction events as [|e events IH]; intros s Hrun; simpl in Hrun.
  - injection Hrun as <-. exists []. rewrite app_nil_r. auto.
  - destruct (step s e) as [s1|] eqn:Hstep; [|discriminate].
    destruct (step_log _ _ _ Hstep) as (a1 & H1 & F1).
    destruct (IH _ Hrun) as (a2 & H2 & F2).
    exists (a1 ++ a2). rewrite H2, H1, app_assoc. split; [reflexivity|].
    apply Forall_app. auto.
Qed.

Lemma requests_are_nonempty_puts_witness :
  run latched_state [Idle; Callback 404 (Some "Not Found"%string); Stop]
  = Some (gst_soup_http_sink_stop relatched_state) /\
  exists added : list SoupMessage,
    soup_log (gst_soup_http_sink_stop relatched_state)
    = soup_log latched_state ++ added /\
    Forall (fun msg => method msg = "PUT"%string /\ request_body msg <> [])
      added.
Proof.
  split; [reflexivity|].
  exact (requests_are_nonempty_puts
           [Idle; Callback 404 (Some "Not Found"%string); Stop]
           latched_state (gst_soup_http_sink_stop relatched_state) eq_refl).
Defined.

(** ** A failed request *)

(** X11: when a request fails, [callback] empties the slot and records the
    status and the reason of the message, and nothing else: the offset
    keeps counting the bytes of the failed request, the queue stays, no
    buffer is unreffed and nothing is sent again.  If a later dispatch then
    sends the queue, the buffers of the failed request are dropped from the
    sent buffers without having been unreffed. *)
Theorem failed_request_is_not_undone (msg : SoupMessage) (s : State) :
  SOUP_STATUS_IS_SUCCESSFUL (msg_status_code msg) = false ->
  message (callback msg s) = None /\
  status_code (callback msg s) = msg_status_code msg /\
  reason_phrase (callback msg s) = msg_reason_phrase msg /\
  offset (callback msg s) = offset s /\
  queued_buffers (callback msg s) = queued_buffers s /\
  sent_buffers (callback msg s) = sent_buffers s /\
  unreffed (callback msg s) = unreffed s /\
  soup_log (callback msg s) = soup_log s /\
  (soup_log (send_message_locked (callback msg s)) <> soup_log s ->
   sent_buffers (send_message_locked (callback msg s)) = queued_buffers s /\
   unreffed (send_message_locked (callback msg s)) = unreffed s).
Proof.
  intros Hfail. unfold callback. rewrite Hfail. simpl.
  repeat split.
  - match goal with
    | H : soup_log (send_message_locked ?x) <> _ |- _ =>
        destruct (send_message_locked_result x) as [_|_ _ _|loc _ _ _ _];
          simpl in *; try contradiction
    end.
    reflexivity.
  - match goal with
    | H : soup_log (send_message_locked ?x) <> _ |- _ =>
        destruct (send_message_locked_result x) as [_|_ _ _|loc _ _ _ _];
          simpl in *; try contradiction
    end.
    reflexivity.
Qed.

Lemma failed_request_is_not_undone_witness :
  SOUP_STATUS_IS_SUCCESSFUL 500 = false /\
  sent_buffers
    (callback (mkMessage "PUT" target [] [x48; x31; x41; x41; x41] 500
                 (Some "Internal Server Error"%string))
       (set_queued_buffers in_flight_state [bufB])) = [bufA] /\
  sent_buffers
    (send_message_locked
       (callback (mkMessage "PUT" target [] [x48; x31; x41; x41; x41] 500
                    (Some "Internal Server Error"%string))
          (set_queued_buffers in_flight_state [bufB]))) = [bufB] /\
  unreffed
    (send_message_locked
       (callback (mkMessage "PUT" target [] [x48; x31; x41; x41; x41] 500
                    (Some "Internal Server Error"%string))
          (set_queued_buffers in_flight_state [bufB]))) = [].
Proof.
  split; [reflexivity|].
  destruct (failed_request_is_not_undone
              (mkMessage "PUT" target [] [x48; x31; x41; x41; x41] 500
                 (Some "Internal Server Error"%string))
              (set_queued_buffers in_flight_state [bufB]) eq_refl)
    as (_ & _ & _ & _ & _ & H6 & _ & _ & H9).
  split; [exact H6|].
  apply H9. discriminate.
Defined.

(** ** End of stream, once more *)

Lemma eos_returns_after_waits (wakeups : list (list Event)) :
  forall (s s' : State) (rest : list (list Event)),
  gst_soup_http_sink_event GST_EVENT_EOS wakeups s = Some (s', rest) ->
  exists used : list (list Event),
    wakeups = used ++ rest /\
    run s (concat used) = Some s' /\
    message s' = None.
Proof.
  induction wakeups as [|w wakeups IH]; intros s s' rest H; simpl in H.
  - destruct (message s) eqn:Hm; [discriminate|].
    injection H as <- <-. exists []. auto.
  - destruct (message s) eqn:Hm.
    + destruct (run s w) as [s1|] eqn:Hw; [|discriminate].
      destruct (IH _ _ _ H) as (used & H1 & H2 & H3).
      exists (w :: used). simpl. rewrite H1, run_app, Hw. auto.
    + injection H as <- <-. exists []. auto.
Qed.

(** X12: the EOS handler changes nothing itself: the state in which it
    returns is the state the other threads have reached during the waits
    it needed.  If the sink has not been stopped, the session then holds no
    message; and if moreover no request has failed and no idle source is
    pending, the queue is empty as well. *)
Theorem eos_return_state (events : list Event)
  (wakeups rest : list (list Event)) (s s' : State) :
  run gst_soup_http_sink_init events = Some s ->
  gst_soup_http_sink_event GST_EVENT_EOS wakeups s = Some (s', rest) ->
  exists used : list (list Event),
    wakeups = used ++ rest /\
    run s (concat used) = Some s' /\
    (forallb not_stop (events ++ concat used) = true ->
     soup_pending s' = []) /\
    (forallb keeps_latch (events ++ concat used) = true ->
     idle_sources s' = 0%nat -> queued_buffers s' = []).
Proof.
  intros Hrun Heos.
  destruct (eos_returns_after_waits _ _ _ _ Heos) as (used & H1 & H2 & H3).
  exists used. split; [exact H1|]. split; [exact H2|].
  assert (Hall : run gst_soup_http_sink_init (events ++ concat used) = Some s')
    by (rewrite run_app, Hrun; exact H2).
  split.
  - intros Hns.
    assert (Hinv : slot_is_pending s').
    { apply (run_slot_is_pending _ gst_soup_http_sink_init _ Hns Hall).
      reflexivity. }
    unfold slot_is_pending in Hinv. rewrite H3 in Hinv. exact Hinv.
  - intros Hk Hidle.
    assert (Hinv : dispatch_owed s').
    { apply (run_dispatch_owed _ gst_soup_http_sink_init _ Hk Hall).
      intros H. now contradiction H. }
    destruct (queued_buffers s') as [|b q] eqn:Hq; [reflexivity|].
    exfalso. unfold dispatch_owed in Hinv. rewrite Hq in Hinv.
    assert (0 < idle_sources s')%nat by (apply Hinv; [discriminate|exact H3]).
    lia.
Qed.

Lemma eos_return_state_witness :
  run gst_soup_http_sink_init
    [SetLocation (Some target); SetCaps (Some [bufH]); Start; Render bufA;
     Idle] = Some in_flight_state /\
  gst_soup_http_sink_event GST_EVENT_EOS
    [[]; [Callback 200 (Some "OK"%string)]; [Idle]] in_flight_state
  = Some (drained_state, [[Idle]]) /\
  exists used : list (list Event),
    [[]; [Callback 200 (Some "OK"%string)]; [Idle]] = used ++ [[Idle]] /\
    run in_flight_state (concat used) = Some drained_state /\
    (forallb not_stop
       ([SetLocation (Some target); SetCaps (Some [bufH]); Start; Render bufA;
         Idle] ++ concat used) = true ->
     soup_pending drained_state = []) /\
    (forallb keeps_latch
       ([SetLocation (Some target); SetCaps (Some [bufH]); Start; Render bufA;
         Idle] ++ concat used) = true ->
     idle_sources drained_state = 0%nat -> queued_buffers drained_state = []).
Proof.
  split; [reflexivity|]. split; [reflexivity|].
  exact (eos_return_state
           [SetLocation (Some target); SetCaps (Some [bufH]); Start;
            Render bufA; Idle]
           [[]; [Callback 200 (Some "OK"%string)]; [Idle]] [[Idle]]
           in_flight_state drained_state eq_refl eq_refl).
Defined.

(** ** Properties *)

(** X13: a property that is set is the property that is read: after
    [set_property] with a value of the type of the property,
    [get_property] gives that value back, and no warning is raised.  The
    ids that have no case ([PROP_0], [PROP_PROXY], [PROP_COOKIES]) can be
    neither set nor read: setting warns and changes nothing, reading gives
    no value. *)
Theorem property_round_trip (property_id : PropertyId) (value : GValue)
  (e : Element) :
  (value_fits property_id value = true ->
   gst_soup_http_sink_get_property property_id
     (fst (gst_soup_http_sink_set_property property_id value e))
   = Some value /\
   snd (gst_soup_http_sink_set_property property_id value e) = false) /\
  (installed property_id = false ->
   gst_soup_http_sink_set_property property_id value e = (e, true) /\
   gst_soup_http_sink_get_property property_id e = None).
Proof.
  split.
  - intros Hfit.
    destruct property_id; destruct value; simpl in Hfit; try discriminate;
      split; reflexivity.
  - intros Hinst.
    destruct property_id; simpl in Hinst; try discriminate; split; reflexivity.
Qed.

Lemma property_round_trip_witness :
  value_fits PROP_LOCATION (G_STRING (Some target)) = true /\
  installed PROP_COOKIES = false /\
  gst_soup_http_sink_get_property PROP_LOCATION
    (fst (gst_soup_http_sink_set_property PROP_LOCATION
            (G_STRING (Some target)) element_init))
  = Some (G_STRING (Some target)) /\
  gst_soup_http_sink_set_property PROP_COOKIES (G_STRING (Some target))
    element_init
  = (element_init, true).
Proof.
  split; [reflexivity|]. split; [reflexivity|]. split.
  - exact (proj1 (proj1 (property_round_trip PROP_LOCATION
                           (G_STRING (Some target)) element_init) eq_refl)).
  - exact (proj1 (proj2 (property_round_trip PROP_COOKIES
                           (G_STRING (Some target)) element_init) eq_refl)).
Defined.

(** X14: setting one property does not change what any other property
    reads; and the engine is touched by two properties only: the location,
    which also puts the offset back to 0 (even when the value is the
    location already set) and keeps the queue, and the session. *)
Theorem property_independence (property_id other : PropertyId)
  (value : GValue) (e : Element) :
  (property_id <> other ->
   gst_soup_http_sink_get_property other
     (fst (gst_soup_http_sink_set_property property_id value e))
   = gst_soup_http_sink_get_property other e) /\
  (property_id <> PROP_LOCATION -> property_id <> PROP_SESSION ->
   engine (fst (gst_soup_http_sink_set_property property_id value e))
   = engine e) /\
  (property_id = PROP_LOCATION ->
   offset (engine (fst (gst_soup_http_sink_set_property property_id value e)))
   = 0 /\
   queued_buffers
     (engine (fst (gst_soup_http_sink_set_property property_id value e)))
   = queued_buffers (engine e) /\
   message (engine (fst (gst_soup_http_sink_set_property property_id value e)))
   = message (engine e)).
Proof.
  split; [|split].
  - intros Hne.
    destruct property_id; destruct other; try reflexivity;
      exfalso; apply Hne; reflexivity.
  - intros H1 H2. destruct property_id; try reflexivity.
    + exfalso. apply H1. reflexivity.
    + exfalso. apply H2. reflexivity.
  - intros ->. simpl. auto.
Qed.

Lemma property_independence_witness :
  PROP_USER_ID <> PROP_LOCATION /\
  PROP_USER_ID <> PROP_SESSION /\
  gst_soup_http_sink_get_property PROP_LOCATION
    (fst (gst_soup_http_sink_set_property PROP_USER_ID
            (G_STRING (Some "user"%string)) element_init))
  = gst_soup_http_sink_get_property PROP_LOCATION element_init /\
  engine (fst (gst_soup_http_sink_set_property PROP_USER_ID
                 (G_STRING (Some "user"%string)) element_init))
  = engine element_init.
Proof.
  assert (H1 : PROP_USER_ID <> PROP_LOCATION) by discriminate.
  assert (H2 : PROP_USER_ID <> PROP_SESSION) by discriminate.
  split; [exact H1|]. split; [exact H2|].
  destruct (property_independence PROP_USER_ID PROP_LOCATION
              (G_STRING (Some "user"%string)) element_init) as (Ha & _).
  destruct (property_independence PROP_USER_ID PROP_SESSION
              (G_STRING (Some "user"%string)) element_init) as (_ & Hb & _).
  split; [exact (Ha H1)|exact (Hb H1 H2)].
Defined.

(** ** Authentication *)

Lemma set_properties_keep_credentials
  (settings : list (PropertyId * GValue)) : forall e : Element,
  forallb (fun setting => negb (is_credential (fst setting))) settings = true ->
  user_id (set_properties settings e) = user_id e /\
  user_pw (set_properties settings e) = user_pw e.
Proof.
  induction settings as [|[property_id value] settings IH]; intros e Hs;
    simpl in *; [auto|].
  apply andb_prop in Hs. destruct Hs as [Hp Hs].
  destruct (IH (fst (gst_soup_http_sink_set_property property_id value e)) Hs)
    as [H1 H2].
  rewrite H1, H2.
  destruct property_id; simpl in Hp; try discriminate; auto.
Qed.

(** X15: [authenticate] answers a challenge with the user id and the
    password that were last set as properties, whatever other properties
    were set since, provided it is not a retry; on a retry, or when either
    of the two is not set, it does not answer; and the proxy id and
    password have no part in it. *)
Theorem authenticate_with_configured_credentials (id pw : string)
  (settings : list (PropertyId * GValue)) (e : Element) :
  forallb (fun setting => negb (is_credential (fst setting))) settings = true ->
  authenticate false
    (set_properties
       ((PROP_USER_ID, G_STRING (Some id))
        :: (PROP_USER_PW, G_STRING (Some pw)) :: settings) e)
  = Some (id, pw) /\
  (forall e' : Element, authenticate true e' = None) /\
  (forall e' : Element,
   user_id e' = None \/ user_pw e' = None -> authenticate false e' = None) /\
  (forall (retrying : bool) (value : GValue) (e' : Element),
   authenticate retrying
     (fst (gst_soup_http_sink_set_property PROP_PROXY_ID value e'))
   = authenticate retrying e' /\
   authenticate retrying
     (fst (gst_soup_http_sink_set_property PROP_PROXY_PW value e'))
   = authenticate retrying e').
Proof.
  intros Hs. split; [|split; [|split]].
  - simpl.
    match goal with
    | |- authenticate false (set_properties settings ?x) = _ =>
        destruct (set_properties_keep_credentials settings x Hs) as [H1 H2]
    end.
    unfold authenticate. simpl. rewrite H1, H2. reflexivity.
  - intros e'. reflexivity.
  - intros e' [H|H]; unfold authenticate; simpl; rewrite H; [reflexivity|].
    destruct (user_id e'); reflexivity.
  - intros retrying value e'. split; reflexivity.
Qed.

Lemma authenticate_with_configured_credentials_witness :
  forallb (fun setting => negb (is_credential (fst setting)))
    [(PROP_LOCATION, G_STRING (Some target));
     (PROP_PROXY_PW, G_STRING (Some "secret"%string))] = true /\
  authenticate false
    (set_properties
       [(PROP_USER_ID, G_STRING (Some "user"%string));
        (PROP_USER_PW, G_STRING (Some "pass"%string));
        (PROP_LOCATION, G_STRING (Some target));
        (PROP_PROXY_PW, G_STRING (Some "secret"%string))] element_init)
  = Some ("user"%string, "pass"%string).
Proof.
  split; [reflexivity|].
  exact (proj1 (authenticate_with_configured_credentials "user" "pass"
                  [(PROP_LOCATION, G_STRING (Some target));
                   (PROP_PROXY_PW, G_STRING (Some "secret"%string))]
                  element_init eq_refl)).
Defined.

(** ** After a stop *)

Lemma dispatch_at_offset_zero (loc : string) (s : State) :
  message s = None -> queued_buffers s <> [] ->
  location s = Some loc -> offset s = 0 ->
  buffers_bytes (streamheader_buffers s) ++ payload_bytes (queued_buffers s)
  <> [] ->
  Z.of_nat (length (buffers_bytes (streamheader_buffers s)
                    ++ payload_bytes (queued_buffers s))) < 2 ^ 64 ->
  soup_log (send_message_locked s)
  = soup_log s
    ++ [mkMessage "PUT" loc []
          (buffers_bytes (streamheader_buffers s)
           ++ payload_bytes (queued_buffers s)) 0 None].
Proof.
  intros Hm Hq Hl Ho Hne Hlt.
  assert (Hbytes : request_bytes s
                   = buffers_bytes (streamheader_buffers s)
                     ++ payload_bytes (queued_buffers s)).
  { unfold request_bytes. rewrite Ho. reflexivity. }
  destruct (send_message_locked_result s)
    as [[H|H]|_ _ [H|H]|loc' _ _ Hl' _]; simpl.
  - contradiction.
  - contradiction.
  - congruence.
  - exfalso. apply request_size_zero in H; [|rewrite Hbytes; exact Hlt].
    rewrite Hbytes in H. contradiction.
  - assert (loc' = loc) as -> by congruence.
    unfold request_for. rewrite Hbytes, Ho. reflexivity.
Qed.

Lemma stop_fields (s : State) :
  status_code (gst_soup_http_sink_stop s) = 0 /\
  offset (gst_soup_http_sink_stop s) = 0 /\
  location (gst_soup_http_sink_stop s) = location s /\
  queued_buffers (gst_soup_http_sink_stop s) = queued_buffers s /\
  streamheader_buffers (gst_soup_http_sink_stop s) = streamheader_buffers s /\
  message (gst_soup_http_sink_stop s) = message s /\
  idle_sources (gst_soup_http_sink_stop s) = idle_sources s /\
  soup_log (gst_soup_http_sink_stop s) = soup_log s /\
  (prop_session s = false -> soup_pending (gst_soup_http_sink_stop s) = []).
Proof.
  unfold gst_soup_http_sink_stop.
  destruct (prop_session s); simpl; repeat split; auto; discriminate.
Qed.

Lemma renders_behind_a_queue (more : list GstBuffer) (loc : string) :
  forall s s' : State,
  status_code s = 0 -> location s = Some loc -> queued_buffers s <> [] ->
  run s (map Render more) = Some s' ->
  idle_sources s' = idle_sources s /\ soup_pending s' = soup_pending s.
Proof.
  induction more as [|b more IH]; intros s s' Hs Hl Hq Hrun; simpl in Hrun.
  - injection Hrun as <-. auto.
  - rewrite (render_accepted b s loc Hs Hl) in Hrun. simpl in Hrun.
    apply IH in Hrun; simpl; auto.
    + destruct Hrun as [H1 H2]. rewrite H1, H2. simpl. split; [|reflexivity].
      unfold burst_wake. destruct (queued_buffers s); [contradiction|lia].
    + destruct (queued_buffers s); discriminate.
Qed.

(** X16: a stop makes the sink accept buffers again, also after an error
    was recorded, and what was still queued at the stop stays in the queue,
    ahead of the new buffer.  If nothing was queued at the stop and no
    request was left in the slot, the render attaches an idle source, and
    the run stop, start, render, idle sends the buffer in a request without
    Content-Range that starts with the stream headers (the bytes to send
    taken to be some, and fewer than 2^64).  But if buffers were queued at
    the stop, no render afterwards attaches an idle source: with none
    pending at the stop and the sink's own session, neither an idle source
    nor a completion is there to dispatch the queue, however many buffers
    are rendered. *)
Theorem stop_then_render (buffer : GstBuffer) (loc : string) (s : State) :
  location s = Some loc ->
  (exists s1 : State,
     run s [Stop; Start; Render buffer] = Some s1 /\
     gst_soup_http_sink_render buffer
       (gst_soup_http_sink_start (gst_soup_http_sink_stop s))
     = (s1, GST_FLOW_OK, None) /\
     queued_buffers s1 = queued_buffers s ++ [buffer] /\
     status_code s1 = 0 /\ offset s1 = 0) /\
  (queued_buffers s = [] -> message s = None ->
   buffers_bytes (streamheader_buffers s) ++ payload_bytes [buffer] <> [] ->
   Z.of_nat (length (buffers_bytes (streamheader_buffers s)
                     ++ payload_bytes [buffer])) < 2 ^ 64 ->
   exists s2 : State,
     run s [Stop; Start; Render buffer; Idle] = Some s2 /\
     soup_log s2
     = soup_log s
       ++ [mkMessage "PUT" loc []
             (buffers_bytes (streamheader_buffers s)
              ++ payload_bytes [buffer]) 0 None] /\
     queued_buffers s2 = []) /\
  (queued_buffers s <> [] -> idle_sources s = 0%nat ->
   prop_session s = false ->
   forall (more : list GstBuffer) (s1 : State),
   run s (Stop :: Start :: Render buffer :: map Render more) = Some s1 ->
   step s1 Idle = None /\
   forall (status : Z) (reason : option string),
     step s1 (Callback status reason) = None).
Proof.
  intros Hl.
  destruct (stop_fields s) as (Hs & Ho & Hloc & Hq & Hh & Hm & Hi & Hlog & Hp).
  rewrite Hl in Hloc.
  assert (Hrender :
    gst_soup_http_sink_render buffer
      (gst_soup_http_sink_start (gst_soup_http_sink_stop s))
    = (set_idle_sources
         (set_queued_buffers (gst_soup_http_sink_stop s)
            (queued_buffers (gst_soup_http_sink_stop s) ++ [buffer]))
         (idle_sources (gst_soup_http_sink_stop s)
          + burst_wake (gst_soup_http_sink_stop s) [buffer]),
       GST_FLOW_OK, None)).
  { unfold gst_soup_http_sink_start.
    exact (render_accepted buffer _ loc Hs Hloc). }
  assert (Hrun3 :
    run s [Stop; Start; Render buffer]
    = Some (set_idle_sources
              (set_queued_buffers (gst_soup_http_sink_stop s)
                 (queued_buffers (gst_soup_http_sink_stop s) ++ [buffer]))
              (idle_sources (gst_soup_http_sink_stop s)
               + burst_wake (gst_soup_http_sink_stop s) [buffer]))).
  { change (run s [Stop; Start; Render buffer])
      with (Some (fst (fst (gst_soup_http_sink_render buffer
                              (gst_soup_http_sink_start
                                 (gst_soup_http_sink_stop s)))))).
    rewrite Hrender. reflexivity. }
  split; [|split].
  - eexists. split; [exact Hrun3|].
    split; [exact Hrender|].
    cbn [queued_buffers status_code offset set_idle_sources set_queued_buffers].
    rewrite Hq, Hs, Ho. auto.
  - intros Hempty Hnone Hne Hlt.
    change [Stop; Start; Render buffer; Idle]
      with ([Stop; Start; Render buffer] ++ [Idle]).
    rewrite run_app, Hrun3.
    unfold burst_wake. rewrite Hq, Hempty, Hi.
    cbn [run step idle_sources set_idle_sources set_queued_buffers].
    rewrite Nat.add_1_r. unfold send_message.
    eexists. split; [reflexivity|].
    match goal with
    | |- soup_log (send_message_locked ?x) = _ /\ _ =>
        assert (Hx : message x = None /\ location x = Some loc
                     /\ offset x = 0 /\ soup_log x = soup_log s
                     /\ streamheader_buffers x = streamheader_buffers s
                     /\ queued_buffers x = [buffer])
    end.
    { cbn [message location offset soup_log streamheader_buffers
           queued_buffers set_idle_sources set_queued_buffers].
      rewrite Hm, Hloc, Ho, Hlog, Hh. auto 10. }
    destruct Hx as (Hx1 & Hx2 & Hx3 & Hx4 & Hx5 & Hx6).
    split.
    + rewrite <- Hx4, <- Hx5, <- Hx6.
      apply dispatch_at_offset_zero; auto.
      * rewrite Hx6. discriminate.
      * rewrite Hx5, Hx6. exact Hne.
      * rewrite Hx5, Hx6. exact Hlt.
    + match goal with
      | |- queued_buffers (send_message_locked ?x) = [] =>
          exact (proj1 (dispatch_takes_whole_queue x Hx1))
      end.
  - intros Hqueued Hidle Hown more s1 Hrun.
    change (Stop :: Start :: Render buffer :: map Render more)
      with ([Stop; Start; Render buffer] ++ map Render more) in Hrun.
    rewrite run_app, Hrun3 in Hrun.
    apply (renders_behind_a_queue more loc) in Hrun.
    + destruct Hrun as [H1 H2].
      cbn [idle_sources soup_pending set_idle_sources set_queued_buffers]
        in H1, H2.
      unfold burst_wake in H1. rewrite Hq, Hi, Hidle in H1.
      destruct (queued_buffers s) as [|b q]; [contradiction|].
      simpl in H1. rewrite (Hp Hown) in H2.
      unfold step. rewrite H1, H2. auto.
    + exact Hs.
    + exact Hloc.
    + cbn [queued_buffers set_idle_sources set_queued_buffers].
      rewrite Hq. destruct (queued_buffers s); discriminate.
Qed.

Lemma stop_then_render_witness :
  location drained_state = Some target /\
  queued_buffers drained_state = [] /\
  message drained_state = None /\
  (exists s2 : State,
     run drained_state [Stop; Start; Render bufC; Idle] = Some s2 /\
     soup_log s2
     = soup_log drained_state
       ++ [mkMessage "PUT" target [] [x48; x31; x43] 0 None] /\
     queued_buffers s2 = []) /\
  location stuck_state = Some target /\
  queued_buffers stuck_state <> [] /\
  idle_sources stuck_state = 0%nat /\
  prop_session stuck_state = false /\
  (forall s1 : State,
   run stuck_state [Stop; Start; Render bufC; Render bufD] = Some s1 ->
   step s1 Idle = None /\
   forall (status : Z) (reason : option string),
     step s1 (Callback status reason) = None).
Proof.
  assert (Hne : buffers_bytes (streamheader_buffers drained_state)
                ++ payload_bytes [bufC] <> []) by discriminate.
  assert (Hlt : Z.of_nat (length (buffers_bytes (streamheader_buffers drained_state)
                                  ++ payload_bytes [bufC])) < 2 ^ 64)
    by (simpl; lia).
  assert (Hq : queued_buffers stuck_state <> []) by discriminate.
  split; [reflexivity|]. split; [reflexivity|]. split; [reflexivity|].
  split.
  { destruct (stop_then_render bufC target drained_state eq_refl)
      as (_ & H & _).
    exact (H eq_refl eq_refl Hne Hlt). }
  split; [reflexivity|]. split; [exact Hq|].
  split; [reflexivity|]. split; [reflexivity|].
  destruct (stop_then_render bufC target stuck_state eq_refl) as (_ & _ & H).
  exact (H Hq eq_refl eq_refl [bufD]).
Defined.
